(** * durin: per-client API tokens and per-client throttling

    A shallow embedding of [durin/models.py] and [durin/throttling.py].

    Conventions of the embedding:
    - a Python [str] is a [string] whose characters are code points below 256;
    - a Python [int] is a [Z];
    - a [datetime] is a [Z] counting microseconds since the epoch, a
      [timedelta] is a [Z] counting microseconds;
    - [None] is [None]: an attribute of type [Union[T, None]] is an [option T];
    - a raised exception is the [Raise] branch of [Result];
    - code that reads the clock, the entropy source, the database or sends a
      signal runs in the state monad [M World]. *)

From Stdlib Require Import ZArith Lia Ascii String.
From Stdlib Require Import DecimalString DecimalZ DecimalPos.
From Stdlib Require Import Init.Byte.
From stdpp Require Import gmap strings list.

Open Scope Z_scope.

(** ** Python built-ins used by the two modules *)

Module Py.

(** The exceptions the code raises or lets through. *)
Inductive Exn : Type :=
  | ValueError_unpack (expected got : nat)
      (* [a, b = xs] with [len(xs) <> 2] *)
  | ValueError_int (literal : string)
      (* [int(s)] on a string that is no integer literal *)
  | ValueError_urandom
      (* [os.urandom(n)] with [n < 0] *)
  | KeyError (key : string)
  | IndexError
  | AttributeError
  | OverflowError
      (* [datetime + timedelta] outside [datetime.min .. datetime.max] *)
  | IntegrityError (constraint : string)
  | DatabaseError
  | ImproperlyConfigured
  | DjValidationError (message : Message)
with Message : Type :=
  | Text (s : string)
  | Of (e : Exn).

Inductive Result (A : Type) : Type :=
  | Ok (a : A)
  | Raise (e : Exn).
Arguments Ok {A} a.
Arguments Raise {A} e.

Definition is_ok {A} (r : Result A) : bool :=
  match r with Ok _ => true | Raise _ => false end.

Definition map_result {A B} (f : A -> B) (r : Result A) : Result B :=
  match r with Ok a => Ok (f a) | Raise e => Raise e end.

(** [s.split(sep)] for a one-character separator: the pieces between the
    occurrences of [sep], so that a string with [n] separators has [n + 1]
    pieces (the empty string has the single piece [""]). *)
Fixpoint split (sep : ascii) (s : string) : list string :=
  match s with
  | EmptyString => [EmptyString]
  | String c rest =>
      if Ascii.eqb c sep then EmptyString :: split sep rest
      else match split sep rest with
           | piece :: pieces => String c piece :: pieces
           | [] => [String c EmptyString]
           end
  end.

(** Whitespace that [int] skips around a literal: the ASCII blanks
    (tab, line feed, vertical tab, form feed, carriage return, space) and,
    above ASCII, the code points that are Unicode spaces (U+0085, U+00A0
    in this range). *)
Definition is_space (c : ascii) : bool :=
  let n := N_of_ascii c in
  ((9 <=? n) && (n <=? 13) || (n =? 32) || (n =? 133) || (n =? 160))%N.

Definition digit_val (c : ascii) : option Z :=
  let n := N_of_ascii c in
  if ((48 <=? n) && (n <=? 57))%N then Some (Z.of_N n - 48) else None.

Fixpoint lstrip (s : string) : string :=
  match s with
  | EmptyString => EmptyString
  | String c rest => if is_space c then lstrip rest else s
  end.

Fixpoint rstrip (s : string) : string :=
  match s with
  | EmptyString => EmptyString
  | String c rest =>
      match rstrip rest with
      | EmptyString => if is_space c then EmptyString else String c EmptyString
      | kept => String c kept
      end
  end.

(** The digits of a base-10 literal, read left to right.  An underscore may
    separate two digits; [after_digit] tells whether the previous character
    was a digit, so that a leading, trailing or doubled underscore and the
    empty literal are refused. *)
Fixpoint int_digits (after_digit : bool) (acc : Z) (s : string) : option Z :=
  match s with
  | EmptyString => if after_digit then Some acc else None
  | String c rest =>
      match digit_val c with
      | Some d => int_digits true (10 * acc + d) rest
      | None =>
          if Ascii.eqb c "_" && after_digit then int_digits false acc rest
          else None
      end
  end.

(** [int(s)] in base 10: blanks around, an optional sign, then the digits.
    Integers are unbounded. *)
Definition int_literal (s : string) : option Z :=
  match rstrip (lstrip s) with
  | String "+" digits => int_digits false 0 digits
  | String "-" digits => Z.opp <$> int_digits false 0 digits
  | digits => int_digits false 0 digits
  end.

Definition int (s : string) : Result Z :=
  match int_literal s with
  | Some n => Ok n
  | None => Raise (ValueError_int s)
  end.

(** [str(n)] for an integer: decimal, a minus sign for negatives. *)
Definition str (n : Z) : string := NilZero.string_of_int (Z.to_int n).

(** [datetime + timedelta], which raises outside the representable range
    0001-01-01T00:00:00 .. 9999-12-31T23:59:59.999999. *)
Definition datetime_min : Z := -62135596800000000.
Definition datetime_max : Z := 253402300799999999.

Definition datetime_add (t delta : Z) : Result Z :=
  let r := t + delta in
  if (datetime_min <=? r) && (r <=? datetime_max) then Ok r
  else Raise OverflowError.

(** [binascii.hexlify]: two lowercase hexadecimal digits per byte, the high
    nibble first. *)
Definition hex_digit (n : N) : ascii :=
  if (n <? 10)%N then ascii_of_N (48 + n) else ascii_of_N (87 + n).

Definition hexlify_byte (b : byte) : string :=
  let n := Byte.to_N b in
  String (hex_digit (n / 16)) (String (hex_digit (n mod 16)) EmptyString).

Fixpoint hexlify (bs : list byte) : string :=
  match bs with
  | [] => EmptyString
  | b :: rest => hexlify_byte b +:+ hexlify rest
  end.

Definition is_lower_hex (c : ascii) : bool :=
  let n := N_of_ascii c in
  ((48 <=? n) && (n <=? 57) || (97 <=? n) && (n <=? 102))%N.

(** Every character of [s] passes the test [p]. *)
Fixpoint all_chars (p : ascii -> bool) (s : string) : bool :=
  match s with
  | EmptyString => true
  | String c rest => p c && all_chars p rest
  end.

Definition is_digit (c : ascii) : bool :=
  let n := N_of_ascii c in ((48 <=? n) && (n <=? 57))%N.

(** State and exceptions: a computation over a state [S] returns a value or
    raises, and leaves the state it reached either way. *)
Definition M (S A : Type) : Type := S -> Result A * S.

Definition ret {S A} (a : A) : M S A := fun s => (Ok a, s).
Definition raise {S A} (e : Exn) : M S A := fun s => (Raise e, s).
Definition bind {S A B} (m : M S A) (k : A -> M S B) : M S B :=
  fun s => match m s with
           | (Ok a, s') => k a s'
           | (Raise e, s') => (Raise e, s')
           end.
Definition lift {S A} (r : Result A) : M S A := fun s => (r, s).
Definition get {S} : M S S := fun s => (Ok s, s).
Definition modify {S} (f : S -> S) : M S unit := fun s => (Ok tt, f s).

End Py.

Infix "<$$>" := Py.map_result (at level 61, left associativity).
Notation "'let*' x ':=' m 'in' k" := (Py.bind m (fun x => k))
  (at level 10, x name, m at level 100, k at level 200).

(** ** durin/models.py: the data model *)

(** [durin.settings.durin_settings]: the two settings the models read. *)
Module Settings.
Record t : Type := {
  TOKEN_CHARACTER_LENGTH : Z;
  DEFAULT_TOKEN_TTL : Z;
}.
End Settings.

(** [settings.AUTH_USER_MODEL], as far as the code looks at it. *)
Module User.
Record t : Type := {
  pk : Z;
  is_authenticated : bool;
}.
End User.

Module ClientSettings.
Record t : Type := {
  throttle_rate : option string;   (* CharField(null=True, blank=True) *)
}.
End ClientSettings.

Module Client.
Record t : Type := {
  pk : Z;
  name : string;
  token_ttl : Z;                          (* DurationField(null=False) *)
  settings : option ClientSettings.t;     (* reverse one-to-one accessor *)
}.

(** [hasattr(self, "settings")] holds when a ClientSettings row points at
    this client. *)
Definition throttle_rate (self : t) : option string :=
  match settings self with
  | Some s => ClientSettings.throttle_rate s
  | None => None
  end.
End Client.

Module UserClient.
Record t : Type := {
  pk : Z;
  user : User.t;
  client : Client.t;
}.
End UserClient.

Module AuthToken.
Record t : Type := {
  pk : Z;
  token : string;
  created : Z;                           (* auto_now_add *)
  expiry : Z;                            (* DateTimeField(null=False) *)
  userclient : option UserClient.t;      (* OneToOneField(null=True) *)
}.

Definition with_expiry (e : Z) (self : t) : t :=
  {| pk := pk self; token := token self; created := created self;
     expiry := e; userclient := userclient self |}.

Definition userclient_id (self : t) : option Z :=
  UserClient.pk <$> userclient self.
End AuthToken.

(** One [token_renewed.send(sender=..., token=..., new_expiry=...)].  The
    token is recorded as the receivers see it during the call. *)
Record TokenRenewed : Type := {
  sender : string;
  renewed_token : AuthToken.t;
  new_expiry : Z;
}.

(** What the code reads from its surroundings: the settings, the wall clock
    ([now_at n] is the value of the [n]-th call of [timezone.now()] since the
    process started) and the operating system's entropy source
    ([entropy n] is the [n]-th byte it hands out). *)
Record Env : Type := {
  durin_settings : Settings.t;
  now_at : nat -> Z;
  entropy : nat -> byte;
}.

(** What the code changes: how far the clock and the entropy source have been
    read, the two tables, and the signals sent so far. *)
Record World : Type := {
  ticks : nat;
  drawn : nat;
  userclient_rows : gmap Z UserClient.t;
  authtoken_rows : gmap Z AuthToken.t;
  sent : list TokenRenewed;
}.

Definition initial : World :=
  {| ticks := 0; drawn := 0; userclient_rows := ∅; authtoken_rows := ∅;
     sent := [] |}.

Definition with_ticks (n : nat) (w : World) : World :=
  {| ticks := n; drawn := drawn w; userclient_rows := userclient_rows w;
     authtoken_rows := authtoken_rows w; sent := sent w |}.
Definition with_drawn (n : nat) (w : World) : World :=
  {| ticks := ticks w; drawn := n; userclient_rows := userclient_rows w;
     authtoken_rows := authtoken_rows w; sent := sent w |}.
Definition with_userclient_rows (r : gmap Z UserClient.t) (w : World) : World :=
  {| ticks := ticks w; drawn := drawn w; userclient_rows := r;
     authtoken_rows := authtoken_rows w; sent := sent w |}.
Definition with_authtoken_rows (r : gmap Z AuthToken.t) (w : World) : World :=
  {| ticks := ticks w; drawn := drawn w; userclient_rows := userclient_rows w;
     authtoken_rows := r; sent := sent w |}.
Definition with_sent (l : list TokenRenewed) (w : World) : World :=
  {| ticks := ticks w; drawn := drawn w; userclient_rows := userclient_rows w;
     authtoken_rows := authtoken_rows w; sent := l |}.

(** [timezone.now()] *)
Definition timezone_now (E : Env) : Py.M World Z :=
  fun w => (Py.Ok (now_at E (ticks w)), with_ticks (S (ticks w)) w).

(** [os.urandom(n)] *)
Definition urandom (E : Env) (n : Z) : Py.M World (list byte) :=
  fun w =>
    if n <? 0 then (Py.Raise Py.ValueError_urandom, w)
    else
      let k := Z.to_nat n in
      (Py.Ok (entropy E <$> seq (drawn w) k), with_drawn (drawn w + k)%nat w).

(** [int(x / 2)] for an integer [x]: the quotient truncated towards zero
    (the float division is exact below 2^53). *)
Definition int_half (x : Z) : Z := Z.quot x 2.

Definition _create_token_string (E : Env) : Py.M World string :=
  let* bs := urandom E (int_half (Settings.TOKEN_CHARACTER_LENGTH (durin_settings E))) in
  Py.ret (Py.hexlify bs).

(** ** The tables, as the field declarations constrain them *)

(** [token = CharField(unique=True)] *)
Definition token_taken (tok : string) (rows : gmap Z AuthToken.t) : Prop :=
  map_Exists (λ _ row, AuthToken.token row = tok) rows.

(** [userclient = OneToOneField(UserClient, null=True)]: unique among the
    rows where it is not null. *)
Definition link_taken (uc : Z) (rows : gmap Z AuthToken.t) : Prop :=
  map_Exists (λ _ row, AuthToken.userclient_id row = Some uc) rows.

(** [models.Manager.create(token=, expiry=, userclient=)]: builds the
    instance and saves it with an INSERT.  [created] is filled in on the way
    ([auto_now_add]), the database picks a primary key that is not in use and
    refuses the row when a unique or foreign-key constraint fails. *)
Definition Manager_create (E : Env) (token : string) (expiry : Z)
    (userclient : UserClient.t) : Py.M World AuthToken.t :=
  let* created := timezone_now E in
  fun w =>
    let rows := authtoken_rows w in
    let link := UserClient.pk userclient in
    if decide (token_taken token rows) then
      (Py.Raise (Py.IntegrityError "authtoken.token"), w)
    else if decide (userclient_rows w !! link = None) then
      (Py.Raise (Py.IntegrityError "authtoken.userclient_id references userclient.id"), w)
    else if decide (link_taken link rows) then
      (Py.Raise (Py.IntegrityError "authtoken.userclient_id"), w)
    else
      let instance :=
        {| AuthToken.pk := fresh (dom rows);
           AuthToken.token := token;
           AuthToken.created := created;
           AuthToken.expiry := expiry;
           AuthToken.userclient := Some userclient |} in
      (Py.Ok instance,
       with_authtoken_rows (<[AuthToken.pk instance := instance]> rows) w).

(** [self.save(update_fields=("expiry",))]: an UPDATE of the one column of
    the row with the instance's primary key; Django raises when no row was
    updated. *)
Definition save_expiry (self : AuthToken.t) : Py.M World unit :=
  fun w =>
    match authtoken_rows w !! AuthToken.pk self with
    | Some row =>
        (Py.Ok tt,
         with_authtoken_rows
           (<[AuthToken.pk self := AuthToken.with_expiry (AuthToken.expiry self) row]>
              (authtoken_rows w)) w)
    | None => (Py.Raise Py.DatabaseError, w)
    end.

(** [token_renewed.send(sender=, token=, new_expiry=)].  The receivers are
    not part of the package: the model records the signal and goes on as
    after receivers that return. *)
Definition token_renewed_send (ev : TokenRenewed) : Py.M World unit :=
  Py.modify (fun w => with_sent (sent w ++ [ev]) w).

(** Deleting a UserClient row.  [on_delete=models.CASCADE] on
    [AuthToken.userclient] removes the token rows that point at it. *)
Definition UserClient_delete (self : UserClient.t) : Py.M World unit :=
  Py.modify (fun w =>
    with_userclient_rows (delete (UserClient.pk self) (userclient_rows w))
      (with_authtoken_rows
         (filter (λ kv, AuthToken.userclient_id (snd kv) ≠ Some (UserClient.pk self))
                 (authtoken_rows w)) w)).

(** Modelled from the spec: [revoke], which the package performs outside the
    two modules embedded here.  It "deletes the AuthToken (and by implication
    frees the link to issue a new one)" and is a no-op on a token that is
    already gone. *)
Definition revoke (self : AuthToken.t) : Py.M World unit :=
  Py.modify (fun w =>
    with_authtoken_rows (delete (AuthToken.pk self) (authtoken_rows w)) w).

(** ** durin/models.py: the operations *)

Module AuthTokenManager.

Definition create (E : Env) (userclient : UserClient.t) (delta_ttl : option Z)
    : Py.M World AuthToken.t :=
  let* token := _create_token_string E in
  let* expiry :=
    match delta_ttl with
    | Some delta =>
        let* now := timezone_now E in
        Py.lift (Py.datetime_add now delta)
    | None =>
        let* now := timezone_now E in
        Py.lift (Py.datetime_add now (Client.token_ttl (UserClient.client userclient)))
    end in
  let* instance := Manager_create E token expiry userclient in
  Py.ret instance.

End AuthTokenManager.

(** [renew_token] changes [self] in place and returns the new expiry: the
    embedding returns both.  [self.userclient] is [None] for a row stored
    with a null link, and then [.client] raises.  The instance carries its
    link as the ORM has cached it, and the embedding follows the call as far
    as it returns: of a call that raises it keeps the exception and the
    world, not the instance. *)
Definition renew_token (E : Env) (self : AuthToken.t) (renewed_by : string)
    : Py.M World (Z * AuthToken.t) :=
  let* now := timezone_now E in
  let* link :=
    match AuthToken.userclient self with
    | Some uc => Py.ret uc
    | None => Py.raise Py.AttributeError
    end in
  let* new_expiry :=
    Py.lift (Py.datetime_add now (Client.token_ttl (UserClient.client link))) in
  let self' := AuthToken.with_expiry new_expiry self in
  let* _ := save_expiry self' in
  let* _ := token_renewed_send
    {| sender := renewed_by; renewed_token := self'; new_expiry := new_expiry |} in
  Py.ret (new_expiry, self').

(** The property [has_expired]: evaluated at each access. *)
Definition has_expired (E : Env) (self : AuthToken.t) : Py.M World bool :=
  let* now := timezone_now E in
  Py.ret (AuthToken.expiry self <? now).

(** ** durin/throttling.py *)

(** An object in [request._auth] that has a [client] attribute; the throttle
    reads that attribute and nothing else. *)
Module Auth.
Record t : Type := {
  client : Client.t;
}.
End Auth.

(** The request, as far as the throttle looks at it.  [_auth = None] stands
    for a request without the attribute ([hasattr(request, "_auth")] is
    false).  [_auth = Some v] is a request with the attribute, where [v] is
    [Some auth] for an object with a [client] attribute and [None] for
    anything else: Python's [None], which rest_framework stores for a user
    authenticated by a scheme that returns no auth object, or an object
    without a [client] attribute, such as another scheme's token. *)
Module Request.
Record t : Type := {
  user : User.t;
  _auth : option (option Auth.t);
}.
End Request.

(** Truth value of a [Union[str, None]]: [None] and the empty string are
    false. *)
Definition truthy (rate : option string) : bool :=
  match rate with
  | None => false
  | Some EmptyString => false
  | Some (String _ _) => true
  end.

(** The value bound to [ident] in [get_cache_key]: a string, or a primary
    key that [%s] renders with [str]. *)
Inductive Ident : Type :=
  | IdentStr (s : string)
  | IdentPk (pk : Z).

Definition format_s (i : Ident) : string :=
  match i with
  | IdentStr s => s
  | IdentPk pk => Py.str pk
  end.

Module UserClientRateThrottle.

(** The attributes [allow_request] assigns ([__init__] assigns none). *)
Record t : Type := {
  rate : option string;
  num_requests : option Z;
  duration : option Z;
}.

Definition unset : t := {| rate := None; num_requests := None; duration := None |}.

Definition scope : string := "user_per_client".

(** [cache_format % {"scope": scope, "ident": ident}] with
    [cache_format = "throttle_%(scope)s_%(ident)s"]. *)
Definition cache_format (scope : string) (ident : Ident) : string :=
  "throttle_" +:+ scope +:+ "_" +:+ format_s ident.

Definition TIME_PERIODS_MAP : gmap string Z :=
  {[ "s" := 1; "m" := 60; "h" := 3600; "d" := 86400 ]}.

(** [num, period = parts] *)
Definition unpack2 (parts : list string) : Py.Result (string * string) :=
  match parts with
  | [num; period] => Py.Ok (num, period)
  | _ => Py.Raise (Py.ValueError_unpack 2 (length parts))
  end.

(** The body of the [try] block of [validate_client_throttle_rate]. *)
Definition validate_body (rate : string) : Py.Result (Z * Z) :=
  match unpack2 (Py.split "/" rate) with
  | Py.Raise e => Py.Raise e
  | Py.Ok (num, period) =>
      match Py.int num with
      | Py.Raise e => Py.Raise e
      | Py.Ok num_requests =>
          match TIME_PERIODS_MAP !! period with
          | Some duration => Py.Ok (num_requests, duration)
          | None => Py.Raise (Py.KeyError period)
          end
      end
  end.

Definition validate_client_throttle_rate (rate : option string) : Py.Result unit :=
  match rate with
  | None => Py.Ok tt
  | Some rate =>
      match validate_body rate with
      | Py.Ok _ => Py.Ok tt
      | Py.Raise (Py.KeyError period) =>
          Py.Raise (Py.DjValidationError
                      (Py.Text ("invalid period '" +:+ period +:+ "'.")))
      | Py.Raise e => Py.Raise (Py.DjValidationError (Py.Of e))
      end
  end.

Section Framework.

(** The parts inherited from [rest_framework.throttling]: the configured
    [DEFAULT_THROTTLE_RATES], [BaseThrottle.get_ident] (the caller's network
    identity) and [SimpleRateThrottle.allow_request] (the window counter,
    which reads the attributes set here). *)
Context {View : Type}.
Variable THROTTLE_RATES : gmap string (option string).
Variable get_ident : Request.t -> string.
Variable super_allow_request : t -> Request.t -> View -> Py.Result bool.

(** [SimpleRateThrottle.get_rate]: the rate configured for the scope. *)
Definition get_rate : Py.Result (option string) :=
  match THROTTLE_RATES !! scope with
  | Some r => Py.Ok r
  | None => Py.Raise Py.ImproperlyConfigured
  end.

(** [SimpleRateThrottle.parse_rate]; it looks at the first character of the
    period only. *)
Definition parse_rate (rate : option string) : Py.Result (option Z * option Z) :=
  match rate with
  | None => Py.Ok (None, None)
  | Some rate =>
      match unpack2 (Py.split "/" rate) with
      | Py.Raise e => Py.Raise e
      | Py.Ok (num, period) =>
          match Py.int num with
          | Py.Raise e => Py.Raise e
          | Py.Ok n =>
              match period with
              | EmptyString => Py.Raise Py.IndexError
              | String c _ =>
                  match TIME_PERIODS_MAP !! String c EmptyString with
                  | Some d => Py.Ok (Some n, Some d)
                  | None => Py.Raise (Py.KeyError (String c EmptyString))
                  end
              end
          end
      end
  end.

Definition set_rate (r : option string) : Py.M t unit :=
  Py.modify (fun self =>
    {| rate := r; num_requests := num_requests self; duration := duration self |}).

Definition set_limits (p : option Z * option Z) : Py.M t unit :=
  Py.modify (fun self =>
    {| rate := rate self; num_requests := fst p; duration := snd p |}).

Definition allow_request (request : Request.t) (view : View) : Py.M t bool :=
  let* _ :=
    match User.is_authenticated (Request.user request), Request._auth request with
    | true, Some (Some auth) =>
        let rate := Client.throttle_rate (Auth.client auth) in
        if truthy rate then set_rate rate
        else let* r := Py.lift get_rate in set_rate r
    | true, Some None =>
        (* [request._auth.client] on a value without that attribute *)
        Py.raise Py.AttributeError
    | _, _ =>
        let* r := Py.lift get_rate in set_rate r
    end in
  let* self := Py.get in
  let* limits := Py.lift (parse_rate (rate self)) in
  let* _ := set_limits limits in
  let* self := Py.get in
  Py.lift (super_allow_request self request view).

(** What is left of [allow_request] once [self.rate] has been given the
    value [r]: the rate is parsed, and either the limits are stored and the
    inherited check answers, or the parse error is raised with the limits
    of the previous request still in place. *)
Definition proceeds_with (r : option string) (request : Request.t)
    (view : View) (self : t) (outcome : Py.Result bool * t) : Prop :=
  rate (snd outcome) = r
  /\ (forall n d,
        parse_rate r = Py.Ok (n, d) ->
        let self' := {| rate := r; num_requests := n; duration := d |} in
        outcome = (super_allow_request self' request view, self'))
  /\ (forall e,
        parse_rate r = Py.Raise e ->
        outcome = (Py.Raise e,
                   {| rate := r; num_requests := num_requests self;
                      duration := duration self |})).

Definition get_user_client_ident (request : Request.t) : Py.Result string :=
  let auth_user := Request.user request in
  match Request._auth request with
  | Some (Some auth) =>
      let client := Auth.client auth in
      Py.Ok ("user-" +:+ Py.str (User.pk auth_user) +:+ ".client-"
               +:+ Py.str (Client.pk client))
  | Some None | None => Py.Raise Py.AttributeError
  end.

Definition get_cache_key (request : Request.t) (view : View) : Py.Result string :=
  let ident :=
    if User.is_authenticated (Request.user request) then
      match Request._auth request with
      | Some _ => IdentStr <$$> get_user_client_ident request
      | None => Py.Ok (IdentPk (User.pk (Request.user request)))
      end
    else Py.Ok (IdentStr (get_ident request)) in
  cache_format scope <$$> ident.

End Framework.

End UserClientRateThrottle.

(** ** What a successful call stores *)

(** The token string [create] generates in world [w]. *)
Definition issued_token (E : Env) (w : World) : string :=
  Py.hexlify
    (entropy E <$> seq (drawn w)
       (Z.to_nat (int_half (Settings.TOKEN_CHARACTER_LENGTH (durin_settings E))))).

(** The time to live [create] uses. *)
Definition chosen_ttl (userclient : UserClient.t) (delta_ttl : option Z) : Z :=
  match delta_ttl with
  | Some delta => delta
  | None => Client.token_ttl (UserClient.client userclient)
  end.

(** The row [create] inserts in world [w]. *)
Definition issued_row (E : Env) (userclient : UserClient.t)
    (delta_ttl : option Z) (w : World) : AuthToken.t :=
  {| AuthToken.pk := fresh (dom (authtoken_rows w));
     AuthToken.token := issued_token E w;
     AuthToken.created := now_at E (S (ticks w));
     AuthToken.expiry := now_at E (ticks w) + chosen_ttl userclient delta_ttl;
     AuthToken.userclient := Some userclient |}.

(** When [create] goes through: the length setting is not negative, the
    expiry is a representable datetime, the generated string is not in use,
    the link exists and has no token. *)
Definition can_issue (E : Env) (userclient : UserClient.t)
    (delta_ttl : option Z) (w : World) : Prop :=
  0 <= int_half (Settings.TOKEN_CHARACTER_LENGTH (durin_settings E))
  /\ Py.datetime_min
       <= now_at E (ticks w) + chosen_ttl userclient delta_ttl
       <= Py.datetime_max
  /\ ~ token_taken (issued_token E w) (authtoken_rows w)
  /\ is_Some (userclient_rows w !! UserClient.pk userclient)
  /\ ~ link_taken (UserClient.pk userclient) (authtoken_rows w).

(** The two invariants of the token table: every token row points at a link
    that exists, and no two rows point at the same link. *)
Definition tokens_owned (w : World) : Prop :=
  forall pk row,
    authtoken_rows w !! pk = Some row ->
    exists link,
      AuthToken.userclient row = Some link
      /\ is_Some (userclient_rows w !! UserClient.pk link).

Definition one_token_per_link (w : World) : Prop :=
  forall pk1 pk2 row1 row2 link,
    authtoken_rows w !! pk1 = Some row1 ->
    authtoken_rows w !! pk2 = Some row2 ->
    AuthToken.userclient_id row1 = Some link ->
    AuthToken.userclient_id row2 = Some link ->
    pk1 = pk2.

Definition consistent (w : World) : Prop :=
  tokens_owned w /\ one_token_per_link w.

(** ** Reading a token string back *)

(** The value of a lowercase hexadecimal digit, and the bytes a string of
    such digits encodes: the inverse of [hexlify] on what it produces. *)
Definition hex_val (c : ascii) : option N :=
  let n := N_of_ascii c in
  if ((48 <=? n) && (n <=? 57))%N then Some (n - 48)%N
  else if ((97 <=? n) && (n <=? 102))%N then Some (n - 87)%N
  else None.

Fixpoint lower_hex_decode (s : string) : option (list byte) :=
  match s with
  | EmptyString => Some []
  | String _ EmptyString => None
  | String hi (String lo rest) =>
      match hex_val hi, hex_val lo, lower_hex_decode rest with
      | Some h, Some l, Some bs =>
          match Byte.of_N (16 * h + l) with
          | Some b => Some (b :: bs)
          | None => None
          end
      | _, _, _ => None
      end
  end.

(** ** Two more facts about the token table *)

(** [token = CharField(unique=True)]: no two rows hold the same string. *)
Definition tokens_unique (w : World) : Prop :=
  forall pk1 pk2 row1 row2,
    authtoken_rows w !! pk1 = Some row1 ->
    authtoken_rows w !! pk2 = Some row2 ->
    AuthToken.token row1 = AuthToken.token row2 ->
    pk1 = pk2.

(** Every row is stored under its own primary key. *)
Definition rows_keyed (w : World) : Prop :=
  forall pk row, authtoken_rows w !! pk = Some row -> AuthToken.pk row = pk.

(** ** A concrete deployment, for running the definitions *)

Module Scenario.

Definition settings8 : Settings.t :=
  {| Settings.TOKEN_CHARACTER_LENGTH := 8;
     Settings.DEFAULT_TOKEN_TTL := 86400000000 |}.

(** The clock advances by a millisecond between two readings; the entropy
    source counts upwards. *)
Definition env : Env :=
  {| durin_settings := settings8;
     now_at := fun n => 1000 * Z.of_nat n;
     entropy := fun n => default Byte.x00 (Byte.of_N (N.of_nat n mod 256)) |}.

Definition web : Client.t :=
  {| Client.pk := 1; Client.name := "web"; Client.token_ttl := 86400000000;
     Client.settings := None |}.

Definition cli : Client.t :=
  {| Client.pk := 2; Client.name := "cli"; Client.token_ttl := 3600000000;
     Client.settings := Some {| ClientSettings.throttle_rate := Some "5/m" |} |}.

(** A client whose settings row holds the empty string, which the column
    accepts ([blank=True]). *)
Definition blank : Client.t :=
  {| Client.pk := 3; Client.name := "blank"; Client.token_ttl := 3600000000;
     Client.settings := Some {| ClientSettings.throttle_rate := Some "" |} |}.

Definition alice : User.t := {| User.pk := 7; User.is_authenticated := true |}.

Definition alice_web : UserClient.t :=
  {| UserClient.pk := 1; UserClient.user := alice; UserClient.client := web |}.
Definition alice_cli : UserClient.t :=
  {| UserClient.pk := 2; UserClient.user := alice; UserClient.client := cli |}.

(** Both links exist, no token has been issued. *)
Definition world : World :=
  with_userclient_rows (<[1 := alice_web]> (<[2 := alice_cli]> ∅)) initial.

(** The token issued to alice on the web client with the client's time to
    live (a day), and the world after issuing it. *)
Definition token_day : AuthToken.t :=
  {| AuthToken.pk := 0; AuthToken.token := "00010203";
     AuthToken.created := 1000; AuthToken.expiry := 86400000000;
     AuthToken.userclient := Some alice_web |}.

Definition world_day : World :=
  {| ticks := 2; drawn := 4;
     userclient_rows := userclient_rows world;
     authtoken_rows := {[ 0 := token_day ]};
     sent := [] |}.

(** The same with an override of ten days. *)
Definition ten_days : Z := 864000000000.

Definition token_ten_days : AuthToken.t :=
  {| AuthToken.pk := 0; AuthToken.token := "00010203";
     AuthToken.created := 1000; AuthToken.expiry := ten_days;
     AuthToken.userclient := Some alice_web |}.

Definition world_ten_days : World :=
  {| ticks := 2; drawn := 4;
     userclient_rows := userclient_rows world;
     authtoken_rows := {[ 0 := token_ten_days ]};
     sent := [] |}.

Definition rates : gmap string (option string) :=
  {[ "user_per_client" := Some "10/min" ]}.

(** Requests by alice through the cli client (rate "5/m") and through the
    client with the blank rate; a window counter that lets everything pass;
    a caller at a fixed address. *)
Definition request_cli : Request.t :=
  {| Request.user := alice;
     Request._auth := Some (Some {| Auth.client := cli |}) |}.

Definition request_blank : Request.t :=
  {| Request.user := alice;
     Request._auth := Some (Some {| Auth.client := blank |}) |}.

(** A client whose rate was stored without validation. *)
Definition broken : Client.t :=
  {| Client.pk := 4; Client.name := "broken"; Client.token_ttl := 3600000000;
     Client.settings := Some {| ClientSettings.throttle_rate := Some "abc/h" |} |}.

Definition request_broken : Request.t :=
  {| Request.user := alice;
     Request._auth := Some (Some {| Auth.client := broken |}) |}.

(** Bob through the cli client, and alice on a request that has no [_auth]
    attribute. *)
Definition bob : User.t := {| User.pk := 8; User.is_authenticated := true |}.

Definition request_bob_cli : Request.t :=
  {| Request.user := bob;
     Request._auth := Some (Some {| Auth.client := cli |}) |}.

Definition request_session : Request.t :=
  {| Request.user := alice; Request._auth := None |}.

(** Alice authenticated by another scheme: rest_framework has set [_auth],
    to a value that has no client. *)
Definition request_other_scheme : Request.t :=
  {| Request.user := alice; Request._auth := Some None |}.

Definition pass_all (self : UserClientRateThrottle.t) (request : Request.t)
    (view : unit) : Py.Result bool := Py.Ok true.

Definition address (request : Request.t) : string := "192.0.2.1".

End Scenario.

(** * Properties *)

(** ** The built-ins on concrete inputs *)

Example split_rate : Py.split "/" "100/h" = ["100"; "h"].
Proof. reflexivity. Qed.
Example split_none : Py.split "/" "" = [""].
Proof. reflexivity. Qed.
Example split_three : Py.split "/" "a//b" = ["a"; ""; "b"].
Proof. reflexivity. Qed.
Example int_plain : Py.int_literal " -1_000 " = Some (-1000).
Proof. reflexivity. Qed.
Example int_bad : Py.int_literal "1__0" = None /\ Py.int_literal "abc" = None
  /\ Py.int_literal "" = None /\ Py.int_literal "- 5" = None /\ Py.int_literal "_5" = None
  /\ Py.int_literal "5_" = None.
Proof. repeat split; reflexivity. Qed.
Example str_neg : Py.str (-50) = "-50" /\ Py.str 0 = "0".
Proof. split; reflexivity. Qed.
Example hex_ex : Py.hexlify [x00; xff; x1a] = "00ff1a".
Proof. reflexivity. Qed.

(** ** Splitting and integer literals *)

Section PyFacts.

Import Py.

Lemma all_chars_impl (p q : ascii -> bool) s :
  (forall c, p c = true -> q c = true) ->
  all_chars p s = true -> all_chars q s = true.
Proof.
  intros Hpq. induction s as [|c s IH]; simpl; [done|].
  rewrite !andb_true_iff. intros [Hc Hs]. split; auto.
Qed.

Lemma append_cons c s1 s2 : String c s1 +:+ s2 = String c (s1 +:+ s2).
Proof. reflexivity. Qed.

Lemma append_nil_l s : EmptyString +:+ s = s.
Proof. reflexivity. Qed.

Lemma all_chars_app p s1 s2 :
  all_chars p (s1 +:+ s2) = all_chars p s1 && all_chars p s2.
Proof.
  induction s1 as [|c s1 IH]; simpl; [done|].
  by rewrite IH, andb_assoc.
Qed.

(** A string without the separator is a single piece. *)
Lemma split_no_sep sep s :
  all_chars (fun c => negb (Ascii.eqb c sep)) s = true ->
  split sep s = [s].
Proof.
  induction s as [|c s IH]; simpl; [done|].
  rewrite andb_true_iff, negb_true_iff. intros [Hc Hs].
  by rewrite Hc, (IH Hs).
Qed.

(** The first separator ends the first piece. *)
Lemma split_app_sep sep s1 s2 :
  all_chars (fun c => negb (Ascii.eqb c sep)) s1 = true ->
  split sep (s1 +:+ String sep s2) = s1 :: split sep s2.
Proof.
  induction s1 as [|c s1 IH]; simpl.
  - intros _. by rewrite Ascii.eqb_refl.
  - rewrite andb_true_iff, negb_true_iff. intros [Hc Hs].
    by rewrite Hc, (IH Hs).
Qed.

Lemma split_nonempty sep s : split sep s <> [].
Proof.
  destruct s as [|c s]; simpl; [done|].
  destruct (Ascii.eqb c sep); [done|]. by destruct (split sep s).
Qed.

Lemma lstrip_no_space s :
  all_chars (fun c => negb (is_space c)) s = true -> lstrip s = s.
Proof.
  destruct s as [|c s]; simpl; [done|].
  rewrite andb_true_iff, negb_true_iff. by intros [-> _].
Qed.

Lemma rstrip_no_space s :
  all_chars (fun c => negb (is_space c)) s = true -> rstrip s = s.
Proof.
  induction s as [|c s IH]; simpl; [done|].
  rewrite andb_true_iff, negb_true_iff. intros [Hc Hs].
  rewrite (IH Hs), Hc. by destruct s.
Qed.

(** The digits [str] prints are read back by [int_digits], with the
    accumulator scheme of [Pos.of_uint_acc]. *)
Lemma int_digits_of_uint_acc (u : Decimal.uint) (acc : positive) (b : bool) :
  u <> Decimal.Nil \/ b = true ->
  int_digits b (Z.pos acc) (NilEmpty.string_of_uint u)
  = Some (Z.pos (Pos.of_uint_acc u acc)).
Proof.
  revert acc b.
  induction u as [|u IH|u IH|u IH|u IH|u IH|u IH|u IH|u IH|u IH|u IH];
    intros acc b Hb;
    [ destruct Hb as [?| ->]; [done | reflexivity]
    | cbn [NilEmpty.string_of_uint int_digits];
      match goal with
      | |- context [digit_val ?c] =>
          change (digit_val c) with (Some (Z.of_N (N_of_ascii c) - 48))
      end;
      cbn [Pos.of_uint_acc];
      match goal with
      | |- _ = Some (Z.pos (Pos.of_uint_acc _ ?a)) =>
          rewrite <- (IH a true) by (by right)
      end;
      f_equal; vm_compute N_of_ascii; lia .. ].
Qed.

Lemma int_digits_of_uint (u : Decimal.uint) (b : bool) :
  u <> Decimal.Nil \/ b = true ->
  int_digits b 0 (NilEmpty.string_of_uint u) = Some (Z.of_N (Pos.of_uint u)).
Proof.
  revert b.
  induction u as [|u IH|u IH|u IH|u IH|u IH|u IH|u IH|u IH|u IH|u IH];
    intros b Hb.
  - destruct Hb as [?| ->]; [done | reflexivity].
  - cbn [NilEmpty.string_of_uint int_digits Pos.of_uint].
    change (digit_val "0") with (Some 0). by apply IH; right.
  - exact (int_digits_of_uint_acc u 1 true (or_intror eq_refl)).
  - exact (int_digits_of_uint_acc u 2 true (or_intror eq_refl)).
  - exact (int_digits_of_uint_acc u 3 true (or_intror eq_refl)).
  - exact (int_digits_of_uint_acc u 4 true (or_intror eq_refl)).
  - exact (int_digits_of_uint_acc u 5 true (or_intror eq_refl)).
  - exact (int_digits_of_uint_acc u 6 true (or_intror eq_refl)).
  - exact (int_digits_of_uint_acc u 7 true (or_intror eq_refl)).
  - exact (int_digits_of_uint_acc u 8 true (or_intror eq_refl)).
  - exact (int_digits_of_uint_acc u 9 true (or_intror eq_refl)).
Qed.

Lemma string_of_uint_digits (u : Decimal.uint) :
  all_chars is_digit (NilEmpty.string_of_uint u) = true.
Proof. induction u; simpl; auto. Qed.

Lemma digit_or_minus_no_space c :
  is_digit c || Ascii.eqb c "-" = true -> negb (is_space c) = true.
Proof. destruct c as [[] [] [] [] [] [] [] []]; vm_compute; congruence. Qed.

Lemma digit_or_minus_no_slash c :
  is_digit c || Ascii.eqb c "-" = true -> negb (Ascii.eqb c "/") = true.
Proof. destruct c as [[] [] [] [] [] [] [] []]; vm_compute; congruence. Qed.

Lemma string_of_uint_nonnil (u : Decimal.uint) :
  u <> Decimal.Nil -> NilZero.string_of_uint u = NilEmpty.string_of_uint u.
Proof. by destruct u. Qed.

(** [str] prints digits, after a minus sign for a negative number. *)
Lemma str_chars (n : Z) :
  all_chars (fun c => is_digit c || Ascii.eqb c "-") (str n) = true.
Proof.
  assert (Hd : forall u, all_chars (fun c => is_digit c || Ascii.eqb c "-")
                           (NilEmpty.string_of_uint u) = true).
  { intros u. eapply all_chars_impl; [|apply string_of_uint_digits].
    by intros c ->. }
  unfold str. destruct n as [|p|p]; [reflexivity| |]; cbn [Z.to_int NilZero.string_of_int].
  - rewrite string_of_uint_nonnil by apply Unsigned.to_uint_nonnil. apply Hd.
  - rewrite string_of_uint_nonnil by apply Unsigned.to_uint_nonnil.
    cbn [all_chars]. by rewrite Hd.
Qed.

Lemma int_literal_of_uint (u : Decimal.uint) :
  u <> Decimal.Nil ->
  int_literal (NilEmpty.string_of_uint u) = Some (Z.of_N (Pos.of_uint u)).
Proof.
  intros Hu. unfold int_literal.
  assert (Hs : all_chars (fun c => negb (is_space c)) (NilEmpty.string_of_uint u) = true).
  { eapply all_chars_impl; [|apply string_of_uint_digits].
    intros c Hc. apply digit_or_minus_no_space. by rewrite Hc. }
  rewrite (lstrip_no_space _ Hs), (rstrip_no_space _ Hs).
  rewrite <- (int_digits_of_uint u false) by (by left).
  by destruct u.
Qed.

Lemma int_literal_minus_uint (u : Decimal.uint) :
  u <> Decimal.Nil ->
  int_literal (String "-" (NilEmpty.string_of_uint u))
  = Some (- Z.of_N (Pos.of_uint u)).
Proof.
  intros Hu. unfold int_literal.
  assert (Hs : all_chars (fun c => negb (is_space c))
                 (String "-" (NilEmpty.string_of_uint u)) = true).
  { cbn [all_chars]. apply andb_true_iff. split; [reflexivity|].
    eapply all_chars_impl; [|apply string_of_uint_digits].
    intros c Hc. apply digit_or_minus_no_space. by rewrite Hc. }
  rewrite (lstrip_no_space _ Hs), (rstrip_no_space _ Hs).
  by rewrite (int_digits_of_uint u false) by (by left).
Qed.

(** [int(str(n)) == n] *)
Lemma int_literal_str (n : Z) : int_literal (str n) = Some n.
Proof.
  unfold str. destruct n as [|p|p]; [reflexivity| |];
    cbn [Z.to_int NilZero.string_of_int];
    rewrite string_of_uint_nonnil by apply Unsigned.to_uint_nonnil.
  - rewrite int_literal_of_uint by apply Unsigned.to_uint_nonnil.
    by rewrite Unsigned.of_to.
  - rewrite int_literal_minus_uint by apply Unsigned.to_uint_nonnil.
    by rewrite Unsigned.of_to.
Qed.

End PyFacts.

(** ** Validation of a client's throttle rate *)

Section Validation.

Import Py UserClientRateThrottle.

Lemma TIME_PERIODS_MAP_known (period : string) :
  is_Some (TIME_PERIODS_MAP !! period)
  <-> (period = "s" \/ period = "m" \/ period = "h" \/ period = "d").
Proof.
  unfold TIME_PERIODS_MAP. split.
  - intros [d Hd].
    destruct (decide (period = "s")) as [|Hs]; [tauto|].
    destruct (decide (period = "m")) as [|Hm]; [tauto|].
    destruct (decide (period = "h")) as [|Hh]; [tauto|].
    destruct (decide (period = "d")) as [|Hdd]; [tauto|].
    by simplify_map_eq.
  - intros [-> | [-> | [-> | ->]]]; by eexists.
Qed.

Lemma unpack2_ok (parts : list string) num period :
  unpack2 parts = Ok (num, period) <-> parts = [num; period].
Proof.
  split; [|by intros ->].
  destruct parts as [|a [|b [|c parts]]]; simpl; try done.
  by intros [= -> ->].
Qed.

(** What the [try] block computes, case by case. *)
Lemma validate_body_ok (rate : string) :
  is_ok (validate_body rate) = true
  <-> exists num period,
        split "/" rate = [num; period]
        /\ int_literal num <> None
        /\ (period = "s" \/ period = "m" \/ period = "h" \/ period = "d").
Proof.
  unfold validate_body, int. split.
  - destruct (unpack2 (split "/" rate)) as [[num period]|e] eqn:Hu; [|done].
    apply unpack2_ok in Hu.
    destruct (int_literal num) as [n|] eqn:Hn; [|done].
    destruct (TIME_PERIODS_MAP !! period) as [d|] eqn:Hd; [|done].
    intros _. exists num, period. split; [done|]. split; [congruence|].
    apply TIME_PERIODS_MAP_known. by eexists.
  - intros (num & period & Hs & Hn & Hp).
    rewrite Hs. cbn [unpack2].
    destruct (int_literal num) as [n|]; [|done].
    apply TIME_PERIODS_MAP_known in Hp as [d ->]. done.
Qed.

Lemma validate_outcome (rate : string) :
  (is_ok (validate_body rate) = true
   /\ validate_client_throttle_rate (Some rate) = Ok tt)
  \/ (is_ok (validate_body rate) = false
      /\ exists m, validate_client_throttle_rate (Some rate)
                   = Raise (DjValidationError m)).
Proof.
  unfold validate_client_throttle_rate.
  destruct (validate_body rate) as [v|e]; [by left|right].
  split; [done|]. destruct e; by eexists.
Qed.

(** C4: a [None] rate passes; a rate string passes or raises the validation
    error, and it raises exactly when it does not split into two parts
    around "/", or the first part is no integer literal, or the second part
    is not one of "s", "m", "h", "d". *)
Theorem validate_client_throttle_rate_raises_iff :
  validate_client_throttle_rate None = Ok tt
  /\ forall rate : string,
       (validate_client_throttle_rate (Some rate) = Ok tt
        \/ exists m, validate_client_throttle_rate (Some rate)
                     = Raise (DjValidationError m))
       /\ ((exists e, validate_client_throttle_rate (Some rate) = Raise e)
           <-> (~ (exists num period, split "/" rate = [num; period]))
               \/ (exists num period,
                     split "/" rate = [num; period]
                     /\ (int_literal num = None
                         \/ ~ (period = "s" \/ period = "m"
                               \/ period = "h" \/ period = "d")))).
Proof.
  split; [reflexivity|]. intros rate.
  pose proof (validate_body_ok rate) as Hbody.
  destruct (validate_outcome rate) as [[Hok Hv] | [Hbad [m Hv]]].
  - split; [by left|]. rewrite Hv. split; [by intros [e ?]|].
    apply Hbody in Hok as (num & period & Hs & Hn & Hp).
    intros [Hno | (num' & period' & Hs' & Hwrong)].
    + destruct Hno. by exists num, period.
    + rewrite Hs in Hs'. injection Hs' as <- <-. tauto.
  - split; [right; by exists m|]. split; [|intros _; by eexists].
    intros _.
    destruct (split "/" rate) as [|a [|b [|c parts]]] eqn:Hs;
      try (left; intros (num & period & [=]); done).
    destruct (int_literal a) as [n|] eqn:Hn;
      [|right; exists a, b; auto].
    right. exists a, b. split; [done|]. right. intros Hp.
    assert (is_ok (validate_body rate) = true) as Hyes; [|congruence].
    apply Hbody. exists a, b. split; [done|]. split; [congruence|done].
Qed.

Lemma validate_printed_count (n : Z) (p : string) :
  p = "s" \/ p = "m" \/ p = "h" \/ p = "d" ->
  validate_client_throttle_rate (Some (str n +:+ String "/" p)) = Ok tt.
Proof.
  intros Hp.
  destruct (validate_outcome (str n +:+ String "/" p)) as [[_ Hv] | [Hbad _]];
    [done|].
  assert (is_ok (validate_body (str n +:+ String "/" p)) = true) as Hyes;
    [|congruence].
  apply validate_body_ok. exists (str n), p. split; [|split; [|done]].
  - rewrite split_app_sep.
    + f_equal. apply split_no_sep.
      destruct Hp as [-> | [-> | [-> | ->]]]; reflexivity.
    + eapply all_chars_impl; [|apply str_chars].
      apply digit_or_minus_no_slash.
  - by rewrite int_literal_str.
Qed.

(** C10: a count that is zero or negative passes validation with each of the
    four periods. *)
Theorem validate_accepts_nonpositive_count (n : Z) (p : string) :
  n <= 0 ->
  p = "s" \/ p = "m" \/ p = "h" \/ p = "d" ->
  validate_client_throttle_rate (Some (str n +:+ "/" +:+ p)) = Ok tt.
Proof. intros _ Hp. by apply validate_printed_count. Qed.

Lemma validate_accepts_nonpositive_count_witness :
  -5 <= 0
  /\ validate_client_throttle_rate (Some "-5/h") = Ok tt.
Proof.
  split; [lia|].
  apply (validate_accepts_nonpositive_count (-5) "h");
    [lia | right; right; left; reflexivity].
Defined.

End Validation.

Example validate_spec_cases :
  UserClientRateThrottle.validate_body "100/h" = Py.Ok (100, 3600)
  /\ Py.is_ok (UserClientRateThrottle.validate_client_throttle_rate (Some "10/min")) = false
  /\ Py.is_ok (UserClientRateThrottle.validate_client_throttle_rate (Some "abc/h")) = false
  /\ UserClientRateThrottle.validate_client_throttle_rate None = Py.Ok tt
  /\ UserClientRateThrottle.validate_client_throttle_rate (Some "0/s") = Py.Ok tt.
Proof. repeat split; reflexivity. Qed.

(** ** The token generator *)

Section TokenString.

Import Py.

Lemma hexlify_byte_lower_hex (b : byte) :
  all_chars is_lower_hex (hexlify_byte b) = true.
Proof. destruct b; reflexivity. Qed.

Lemma hexlify_lower_hex (bs : list byte) :
  all_chars is_lower_hex (hexlify bs) = true.
Proof.
  induction bs as [|b bs IH]; [done|].
  cbn [hexlify]. by rewrite all_chars_app, hexlify_byte_lower_hex, IH.
Qed.

Lemma hexlify_length (bs : list byte) :
  String.length (hexlify bs) = (2 * length bs)%nat.
Proof.
  induction bs as [|b bs IH]; [done|].
  cbn [hexlify length]. unfold hexlify_byte.
  rewrite !append_cons, append_nil_l. cbn [String.length]. rewrite IH. lia.
Qed.

Lemma urandom_length (E : Env) (n : Z) (w : World) bs w' :
  urandom E n w = (Ok bs, w') ->
  0 <= n /\ bs = (entropy E <$> seq (drawn w) (Z.to_nat n))
  /\ length bs = Z.to_nat n
  /\ w' = with_drawn (drawn w + Z.to_nat n)%nat w.
Proof.
  unfold urandom. destruct (Z.ltb_spec n 0); [done|].
  intros [= <- <-]. repeat split; [done|].
  by rewrite length_fmap, length_seq.
Qed.

Lemma even_half (n : Z) : Z.even n = true -> n = 2 * (n / 2).
Proof.
  intros [k ->]%Z.even_spec.
  by rewrite (Z.mul_comm 2 k), Z.div_mul, Z.mul_comm.
Qed.

(** C7: for an even positive TOKEN_CHARACTER_LENGTH, the generator returns
    the hexadecimal encoding of length/2 bytes taken from the entropy source:
    a string of exactly that many characters, each a lowercase hexadecimal
    digit. *)
Theorem create_token_string_length (E : Env) (w : World) :
  let len := Settings.TOKEN_CHARACTER_LENGTH (durin_settings E) in
  0 < len ->
  Z.even len = true ->
  exists bs : list byte,
    _create_token_string E w
    = (Ok (hexlify bs), with_drawn (drawn w + Z.to_nat (len / 2))%nat w)
    /\ bs = (entropy E <$> seq (drawn w) (Z.to_nat (len / 2)))
    /\ Z.of_nat (length bs) = len / 2
    /\ Z.of_nat (String.length (hexlify bs)) = len
    /\ all_chars is_lower_hex (hexlify bs) = true.
Proof.
  intros len Hpos Heven.
  assert (Hhalf : int_half len = len / 2).
  { unfold int_half. apply Z.quot_div_nonneg; lia. }
  pose proof (even_half len Heven) as Hlen.
  exists (entropy E <$> seq (drawn w) (Z.to_nat (len / 2))).
  split; [|split; [done|]].
  - unfold _create_token_string, bind, ret, urandom. fold len.
    rewrite Hhalf. destruct (Z.ltb_spec (len / 2) 0); [lia|done].
  - rewrite hexlify_length, length_fmap, length_seq.
    split; [lia|]. split; [lia|apply hexlify_lower_hex].
Qed.

End TokenString.

Lemma create_token_string_length_witness :
  exists bs : list byte,
    _create_token_string Scenario.env Scenario.world
    = (Py.Ok (Py.hexlify bs), with_drawn 4 Scenario.world)
    /\ Py.hexlify bs = "00010203".
Proof.
  destruct (create_token_string_length Scenario.env Scenario.world)
    as (bs & Hrun & Hbs & _); [simpl; lia | reflexivity |].
  exists bs. split; [exact Hrun|]. rewrite Hbs. reflexivity.
Defined.

(** ** Expiry *)

Section Expiry.

Import Py.

Variable E : Env.

(** C9: [has_expired] never raises; it reads the clock and answers true
    exactly when that reading is strictly later than the token's expiry.  It
    leaves the tables and the signals as they were, and a second access reads
    the clock again: its answer is about the next reading. *)
Theorem has_expired_reads_clock (self : AuthToken.t) (w : World) :
  exists (b b2 : bool) (w' w'' : World),
    has_expired E self w = (Ok b, w')
    /\ (b = true <-> AuthToken.expiry self < now_at E (ticks w))
    /\ authtoken_rows w' = authtoken_rows w
    /\ userclient_rows w' = userclient_rows w
    /\ sent w' = sent w
    /\ has_expired E self w' = (Ok b2, w'')
    /\ (b2 = true <-> AuthToken.expiry self < now_at E (S (ticks w))).
Proof.
  exists (AuthToken.expiry self <? now_at E (ticks w)),
         (AuthToken.expiry self <? now_at E (S (ticks w))),
         (with_ticks (S (ticks w)) w),
         (with_ticks (S (S (ticks w))) w).
  repeat split; try apply Z.ltb_lt; done.
Qed.

End Expiry.

(** An access before the expiry answers false, the next one after it answers
    true: the answer is not kept. *)
Example has_expired_changes :
  let tok := {| AuthToken.pk := 0; AuthToken.token := "00010203";
                AuthToken.created := 0; AuthToken.expiry := 500;
                AuthToken.userclient := Some Scenario.alice_web |} in
  exists w1 w2,
    has_expired Scenario.env tok Scenario.world = (Py.Ok false, w1)
    /\ has_expired Scenario.env tok w1 = (Py.Ok true, w2).
Proof. eexists _, _. split; reflexivity. Qed.

(** ** Issuing a token *)

Section Issue.

Import Py.

Variable E : Env.

(** Every outcome of [create]: it leaves the links and the signals alone;
    when it returns, the row it returns is the one inserted; when it raises,
    the token table is as before. *)
Lemma create_outcome userclient delta_ttl w r w' :
  AuthTokenManager.create E userclient delta_ttl w = (r, w') ->
  userclient_rows w' = userclient_rows w
  /\ sent w' = sent w
  /\ match r with
     | Ok instance =>
         can_issue E userclient delta_ttl w
         /\ instance = issued_row E userclient delta_ttl w
         /\ ticks w' = S (S (ticks w))
         /\ authtoken_rows w'
            = <[AuthToken.pk instance := instance]> (authtoken_rows w)
     | Raise _ =>
         ~ can_issue E userclient delta_ttl w
         /\ authtoken_rows w' = authtoken_rows w
     end.
Proof.
  unfold can_issue, issued_row, issued_token, chosen_ttl.
  unfold AuthTokenManager.create, _create_token_string, Manager_create,
    timezone_now, urandom, bind, ret, lift, datetime_add.
  set (half := int_half (Settings.TOKEN_CHARACTER_LENGTH (durin_settings E))).
  destruct (Z.ltb_spec half 0) as [Hneg|Hlen].
  { intros [= <- <-]. repeat split; try done. intros [? _]. lia. }
  destruct delta_ttl as [delta|]; cbn [with_drawn ticks drawn
    with_ticks authtoken_rows userclient_rows sent].
  all: match goal with
       | |- context [(datetime_min <=? ?x) && (?x <=? datetime_max)] =>
           destruct (Z.leb_spec datetime_min x), (Z.leb_spec x datetime_max);
           cbn [andb]
       end;
       try (intros [= <- <-]; repeat split; try done;
            intros (_ & ? & _); lia).
  all: repeat case_decide; intros [= <- <-]; cbn.
  all: repeat split; try done; try lia.
  all: try (intros (_ & _ & ? & [? ?] & ?); done || congruence).
  all: by apply not_eq_None_Some.
Qed.

(** C2: [create] returns exactly when [can_issue] holds, and the token it
    returns expires at the clock reading plus the override when one is
    given, plus the client's [token_ttl] otherwise.  [created] is the next
    clock reading, so [expiry - created] is the chosen time to live less the
    time that passed between the two readings. *)
Theorem create_sets_expiry (userclient : UserClient.t) (delta_ttl : option Z)
    (w : World) :
  (can_issue E userclient delta_ttl w
   <-> exists instance w',
         AuthTokenManager.create E userclient delta_ttl w = (Ok instance, w'))
  /\ forall instance w',
       AuthTokenManager.create E userclient delta_ttl w = (Ok instance, w') ->
       let now := now_at E (ticks w) in
       let elapsed := now_at E (S (ticks w)) - now in
       let ttl := chosen_ttl userclient delta_ttl in
       match delta_ttl with
       | Some delta => AuthToken.expiry instance = now + delta
       | None =>
           AuthToken.expiry instance
           = now + Client.token_ttl (UserClient.client userclient)
       end
       /\ AuthToken.created instance = now + elapsed
       /\ AuthToken.expiry instance - AuthToken.created instance = ttl - elapsed
       /\ (forall eps, 0 <= elapsed <= eps ->
             Z.abs (AuthToken.expiry instance - AuthToken.created instance - ttl)
             <= eps)
       /\ AuthToken.userclient instance = Some userclient
       /\ authtoken_rows w' !! AuthToken.pk instance = Some instance.
Proof.
  split.
  - destruct (AuthTokenManager.create E userclient delta_ttl w) as [r w1] eqn:Hrun.
    pose proof (create_outcome _ _ _ _ _ Hrun) as (_ & _ & Hr).
    destruct r as [instance|e].
    + split; [intros _; by eexists _, _ | intros _; apply Hr].
    + split; [intros ?; by destruct Hr | intros (? & ? & [=])].
  - intros instance w' Hrun now elapsed ttl.
    pose proof (create_outcome _ _ _ _ _ Hrun) as (_ & _ & _ & -> & _ & ->).
    subst now elapsed ttl. cbn [issued_row AuthToken.expiry AuthToken.created
      AuthToken.userclient AuthToken.pk].
    repeat split.
    + by destruct delta_ttl.
    + lia.
    + lia.
    + intros eps Heps. lia.
    + apply lookup_insert_eq.
Qed.

End Issue.

Lemma create_sets_expiry_witness :
  exists instance w',
    AuthTokenManager.create Scenario.env Scenario.alice_web None Scenario.world
    = (Py.Ok instance, w')
    /\ AuthToken.expiry instance - AuthToken.created instance
       = 86400000000 - 1000.
Proof.
  eexists _, _. split; [vm_compute; reflexivity|].
  destruct (create_sets_expiry Scenario.env Scenario.alice_web None Scenario.world)
    as [_ Hspec].
  refine (proj1 (proj2 (proj2 (Hspec _ _ _)))).
  vm_compute; reflexivity.
Defined.

(** ** Renewing a token *)

Section Renew.

Import Py.

Variable E : Env.

(** Every outcome of [renew_token]. *)
Lemma renew_outcome self renewed_by w r w' :
  renew_token E self renewed_by w = (r, w') ->
  userclient_rows w' = userclient_rows w
  /\ ticks w' = S (ticks w)
  /\ match r with
     | Ok (e, self') =>
         exists link row,
           AuthToken.userclient self = Some link
           /\ authtoken_rows w !! AuthToken.pk self = Some row
           /\ e = now_at E (ticks w) + Client.token_ttl (UserClient.client link)
           /\ self' = AuthToken.with_expiry e self
           /\ authtoken_rows w'
              = <[AuthToken.pk self := AuthToken.with_expiry e row]>
                  (authtoken_rows w)
           /\ sent w'
              = sent w ++ [{| sender := renewed_by; renewed_token := self';
                              new_expiry := e |}]
     | Raise _ => authtoken_rows w' = authtoken_rows w /\ sent w' = sent w
     end.
Proof.
  unfold renew_token, save_expiry, token_renewed_send, timezone_now,
    bind, ret, raise, lift, modify, datetime_add.
  destruct (AuthToken.userclient self) as [link|]; cbn [with_ticks ticks
    authtoken_rows userclient_rows sent];
    [|by intros [= <- <-]].
  match goal with
  | |- context [(datetime_min <=? ?x) && (?x <=? datetime_max)] =>
      destruct ((datetime_min <=? x) && (x <=? datetime_max))
  end; [|by intros [= <- <-]].
  cbn [AuthToken.with_expiry AuthToken.pk AuthToken.expiry].
  destruct (authtoken_rows w !! AuthToken.pk self) as [row|] eqn:Hrow;
    intros [= <- <-]; cbn; [|done].
  repeat split; try done. by exists link, row.
Qed.

(** C3: a [renew_token] that returns has set the expiry to the clock reading
    plus the [token_ttl] of the token's client, on the instance and in its
    row, where nothing but the expiry changed; it has sent one signal, with
    the token, the new expiry and [renewed_by] as the sender, and it returns
    the new expiry.  No other operation changes the expiry of a stored
    token: [create], [has_expired], [revoke] and the deletion of a link
    leave every row they keep as it was. *)
Theorem renew_token_sets_expiry :
  (forall self renewed_by w e self' w',
     renew_token E self renewed_by w = (Ok (e, self'), w') ->
     exists link row,
       AuthToken.userclient self = Some link
       /\ authtoken_rows w !! AuthToken.pk self = Some row
       /\ e = now_at E (ticks w) + Client.token_ttl (UserClient.client link)
       /\ self' = AuthToken.with_expiry e self
       /\ authtoken_rows w'
          = <[AuthToken.pk self := AuthToken.with_expiry e row]> (authtoken_rows w)
       /\ userclient_rows w' = userclient_rows w
       /\ sent w'
          = sent w ++ [{| sender := renewed_by; renewed_token := self';
                          new_expiry := e |}])
  /\ (forall userclient delta_ttl w r w' pk row,
        AuthTokenManager.create E userclient delta_ttl w = (r, w') ->
        authtoken_rows w !! pk = Some row ->
        authtoken_rows w' !! pk = Some row)
  /\ (forall self w r w',
        has_expired E self w = (r, w') ->
        authtoken_rows w' = authtoken_rows w)
  /\ (forall self w pk row,
        authtoken_rows (snd (revoke self w)) !! pk = Some row ->
        authtoken_rows w !! pk = Some row)
  /\ (forall link w pk row,
        authtoken_rows (snd (UserClient_delete link w)) !! pk = Some row ->
        authtoken_rows w !! pk = Some row).
Proof.
  repeat apply conj.
  - intros self renewed_by w e self' w' Hrun.
    destruct (renew_outcome _ _ _ _ _ Hrun)
      as (Hlinks & _ & link & row & ? & ? & ? & ? & ? & ?).
    by exists link, row.
  - intros userclient delta_ttl w r w' pk row Hrun Hrow.
    destruct (create_outcome E _ _ _ _ _ Hrun) as (_ & _ & Hr).
    destruct r as [instance|e].
    + destruct Hr as (_ & Hinst & _ & ->).
      rewrite lookup_insert_ne; [done|].
      intros <-. rewrite Hinst in Hrow. cbn in Hrow.
      apply (is_fresh (dom (authtoken_rows w))).
      apply elem_of_dom. by eexists.
    + destruct Hr as [_ ->]. done.
  - by intros self w r w' [= <- <-].
  - intros self w pk row. cbn.
    by intros [_ ?]%lookup_delete_Some.
  - intros link w pk row. cbn.
    by intros [? _]%map_lookup_filter_Some.
Qed.

(** C5, as the code has it: the first of two successive renewals moves the
    expiry forward exactly when the old expiry is earlier than the clock
    reading plus the client's [token_ttl]; the two renewals send exactly two
    signals, and the second expiry is later than the first exactly when the
    clock advanced between the two readings. *)
Theorem renew_twice self a b w e1 self1 w1 e2 self2 w2 :
  renew_token E self a w = (Ok (e1, self1), w1) ->
  renew_token E self1 b w1 = (Ok (e2, self2), w2) ->
  exists link,
    AuthToken.userclient self = Some link
    /\ e1 = now_at E (ticks w) + Client.token_ttl (UserClient.client link)
    /\ e2 = now_at E (S (ticks w)) + Client.token_ttl (UserClient.client link)
    /\ AuthToken.expiry self1 = e1
    /\ AuthToken.expiry self2 = e2
    /\ (AuthToken.expiry self < AuthToken.expiry self1
        <-> AuthToken.expiry self
            < now_at E (ticks w) + Client.token_ttl (UserClient.client link))
    /\ sent w2
       = sent w ++ [{| sender := a; renewed_token := self1; new_expiry := e1 |};
                    {| sender := b; renewed_token := self2; new_expiry := e2 |}]
    /\ (e1 < e2 <-> now_at E (ticks w) < now_at E (S (ticks w))).
Proof.
  intros Hrun1 Hrun2.
  destruct (renew_outcome _ _ _ _ _ Hrun1)
    as (_ & Hticks & link & row & Hlink & _ & He1 & Hself1 & _ & Hsent1).
  destruct (renew_outcome _ _ _ _ _ Hrun2)
    as (_ & _ & link' & row' & Hlink' & _ & He2 & Hself2 & _ & Hsent2).
  rewrite Hself1 in Hlink'. cbn in Hlink'. rewrite Hlink in Hlink'.
  injection Hlink' as <-. rewrite Hticks in He2.
  exists link. rewrite Hsent2, Hsent1, <- app_assoc.
  rewrite Hself2, Hself1, He1, He2. cbn.
  repeat split; try done; lia.
Qed.

End Renew.

Example create_day :
  AuthTokenManager.create Scenario.env Scenario.alice_web None Scenario.world
  = (Py.Ok Scenario.token_day, Scenario.world_day).
Proof. vm_compute. reflexivity. Qed.

Example create_ten_days :
  AuthTokenManager.create Scenario.env Scenario.alice_web
    (Some Scenario.ten_days) Scenario.world
  = (Py.Ok Scenario.token_ten_days, Scenario.world_ten_days).
Proof. vm_compute. reflexivity. Qed.

(** A second token for the same link is refused. *)
Example create_conflict :
  fst (AuthTokenManager.create Scenario.env Scenario.alice_web None
         Scenario.world_day)
  = Py.Raise (Py.IntegrityError "authtoken.userclient_id").
Proof. vm_compute. reflexivity. Qed.

Lemma renew_token_sets_expiry_witness :
  exists e self' w',
    renew_token Scenario.env Scenario.token_day "alice" Scenario.world_day
    = (Py.Ok (e, self'), w')
    /\ e = 2000 + 86400000000
    /\ AuthToken.expiry self' = e
    /\ length (sent w') = 1%nat.
Proof.
  eexists _, _, _. split; [vm_compute; reflexivity|].
  edestruct (proj1 (renew_token_sets_expiry Scenario.env)
               Scenario.token_day "alice" Scenario.world_day)
    as (link & row & Hlink & Hrow & He & Hself & Hrows & Hlinks & Hsent);
    [vm_compute; reflexivity|].
  injection Hlink as <-.
  split; [exact He|]. split; [reflexivity|]. rewrite Hsent. reflexivity.
Defined.

Lemma renew_twice_witness :
  exists e1 self1 w1 e2 self2 w2,
    renew_token Scenario.env Scenario.token_day "alice" Scenario.world_day
    = (Py.Ok (e1, self1), w1)
    /\ renew_token Scenario.env self1 "bob" w1 = (Py.Ok (e2, self2), w2)
    /\ e1 < e2
    /\ length (sent w2) = 2%nat.
Proof.
  eexists _, _, _, _, _, _.
  split; [vm_compute; reflexivity|]. split; [vm_compute; reflexivity|].
  edestruct (renew_twice Scenario.env Scenario.token_day "alice" "bob"
               Scenario.world_day)
    as (link & _ & _ & _ & _ & _ & _ & Hsent & Hlt);
    [vm_compute; reflexivity | vm_compute; reflexivity |].
  split; [apply Hlt; vm_compute; reflexivity|].
  rewrite Hsent. reflexivity.
Defined.

(** C5 as stated fails: a token issued with an override of ten days for a
    client whose [token_ttl] is one day is renewed to one day from now, which
    is earlier than the expiry it had. *)
Lemma renew_can_move_expiry_back :
  exists e self' w',
    AuthTokenManager.create Scenario.env Scenario.alice_web
      (Some Scenario.ten_days) Scenario.world
    = (Py.Ok Scenario.token_ten_days, Scenario.world_ten_days)
    /\ renew_token Scenario.env Scenario.token_ten_days "alice"
         Scenario.world_ten_days
       = (Py.Ok (e, self'), w')
    /\ e = AuthToken.expiry self'
    /\ AuthToken.expiry self' = 86400002000
    /\ AuthToken.expiry Scenario.token_ten_days = 864000000000
    /\ ~ (AuthToken.expiry Scenario.token_ten_days < AuthToken.expiry self').
Proof.
  eexists _, _, _. split; [vm_compute; reflexivity|].
  split; [vm_compute; reflexivity|].
  repeat split. vm_compute. intros [=].
Qed.

(** ** One token per link *)

Section Invariants.

Import Py.

Variable E : Env.

Lemma consistent_no_tokens (w : World) :
  authtoken_rows w = ∅ -> consistent w.
Proof.
  intros Hnone. split.
  - intros pk row. by rewrite Hnone, lookup_empty.
  - intros pk1 pk2 row1 row2 link. by rewrite Hnone, lookup_empty.
Qed.

Lemma consistent_initial : consistent initial.
Proof. by apply consistent_no_tokens. Qed.

Lemma consistent_ext (w w' : World) :
  authtoken_rows w' = authtoken_rows w ->
  userclient_rows w' = userclient_rows w ->
  consistent w -> consistent w'.
Proof.
  intros Ht Hl [Hown Hone]. split.
  - intros pk row. rewrite Ht, Hl. apply Hown.
  - intros pk1 pk2 row1 row2 link. rewrite Ht. apply Hone.
Qed.

Lemma create_consistent userclient delta_ttl w :
  consistent w ->
  consistent (snd (AuthTokenManager.create E userclient delta_ttl w)).
Proof.
  destruct (AuthTokenManager.create E userclient delta_ttl w) as [r w'] eqn:Hrun.
  destruct (create_outcome E _ _ _ _ _ Hrun) as (Hlinks & _ & Hr).
  cbn [snd]. destruct r as [instance|e].
  - destruct Hr as ((_ & _ & _ & Hlink & Hfree) & Hinst & _ & Hrows).
    intros [Hown Hone]. split.
    + intros pk row. rewrite Hrows, Hlinks.
      intros [[<- <-] | [_ Hrow]]%lookup_insert_Some; [|by eapply Hown].
      exists userclient. by rewrite Hinst.
    + assert (Hnew : AuthToken.userclient_id instance
                     = Some (UserClient.pk userclient)) by by rewrite Hinst.
      intros pk1 pk2 row1 row2 link. rewrite Hrows.
      intros [[<- <-] | [_ Hrow1]]%lookup_insert_Some
             [[<- <-] | [_ Hrow2]]%lookup_insert_Some Hid1 Hid2; [done| | |].
      * destruct Hfree. exists pk2, row2. split; [done|]. congruence.
      * destruct Hfree. exists pk1, row1. split; [done|]. congruence.
      * by eapply Hone.
  - destruct Hr as [_ Hrows]. by apply consistent_ext.
Qed.

Lemma renew_consistent self renewed_by w :
  consistent w ->
  consistent (snd (renew_token E self renewed_by w)).
Proof.
  destruct (renew_token E self renewed_by w) as [r w'] eqn:Hrun.
  destruct (renew_outcome E _ _ _ _ _ Hrun) as (Hlinks & _ & Hr).
  cbn [snd]. destruct r as [[e self']|err].
  - destruct Hr as (link & row & _ & Hrow & _ & _ & Hrows & _).
    intros [Hown Hone]. split.
    + intros pk row'. rewrite Hrows, Hlinks.
      intros [[<- <-] | [_ Hrow']]%lookup_insert_Some; [|by eapply Hown].
      apply (Hown _ _ Hrow).
    + assert (Hsame : forall pk r,
                <[AuthToken.pk self := AuthToken.with_expiry e row]>
                  (authtoken_rows w) !! pk = Some r ->
                exists r0, authtoken_rows w !! pk = Some r0
                           /\ AuthToken.userclient_id r0
                              = AuthToken.userclient_id r).
      { intros pk r [[<- <-] | [_ Hr]]%lookup_insert_Some; by eexists. }
      intros pk1 pk2 row1 row2 l. rewrite Hrows.
      intros (r1 & Hr1 & Hid1)%Hsame (r2 & Hr2 & Hid2)%Hsame.
      rewrite <- Hid1, <- Hid2. by eapply Hone.
  - destruct Hr as [Hrows _]. by apply consistent_ext.
Qed.

Lemma revoke_consistent self w :
  consistent w -> consistent (snd (revoke self w)).
Proof.
  intros [Hown Hone]. split; unfold tokens_owned, one_token_per_link; cbn.
  - intros pk row [_ Hrow]%lookup_delete_Some. by eapply Hown.
  - intros pk1 pk2 row1 row2 link [_ Hrow1]%lookup_delete_Some
      [_ Hrow2]%lookup_delete_Some. by eapply Hone.
Qed.

Lemma UserClient_delete_cascades link w :
  ~ link_taken (UserClient.pk link)
      (authtoken_rows (snd (UserClient_delete link w))).
Proof.
  cbn. intros (pk & row & Hrow & Hid).
  apply map_lookup_filter_Some in Hrow as [_ Hkeep]. by apply Hkeep.
Qed.

Lemma UserClient_delete_consistent link w :
  consistent w -> consistent (snd (UserClient_delete link w)).
Proof.
  intros [Hown Hone]. split; unfold tokens_owned, one_token_per_link; cbn.
  - intros pk row [Hrow Hkeep]%map_lookup_filter_Some. cbn in Hkeep.
    destruct (Hown _ _ Hrow) as (l & Hl & Hexists).
    exists l. split; [done|].
    rewrite lookup_delete_ne; [done|].
    intros Heq. apply Hkeep. unfold AuthToken.userclient_id.
    rewrite Hl. cbn. by rewrite Heq.
  - intros pk1 pk2 row1 row2 l [Hrow1 _]%map_lookup_filter_Some
      [Hrow2 _]%map_lookup_filter_Some. by eapply Hone.
Qed.

(** C6: in a world where every token row points at an existing link and no
    two rows point at the same link, this is still so after [create], after
    [renew_token], after [revoke] and after the deletion of a link, whether
    the call returned or raised; it is so in the empty world; and after the
    deletion of a link no token row points at it. *)
Theorem one_token_per_link_preserved :
  consistent initial
  /\ (forall userclient delta_ttl w,
        consistent w ->
        consistent (snd (AuthTokenManager.create E userclient delta_ttl w)))
  /\ (forall self renewed_by w,
        consistent w ->
        consistent (snd (renew_token E self renewed_by w)))
  /\ (forall self w, consistent w -> consistent (snd (revoke self w)))
  /\ (forall link w,
        consistent w ->
        consistent (snd (UserClient_delete link w))
        /\ ~ link_taken (UserClient.pk link)
             (authtoken_rows (snd (UserClient_delete link w)))).
Proof.
  split; [apply consistent_initial|].
  split; [apply create_consistent|].
  split; [apply renew_consistent|].
  split; [apply revoke_consistent|].
  intros link w Hw.
  split; [by apply UserClient_delete_consistent|apply UserClient_delete_cascades].
Qed.

End Invariants.

Lemma one_token_per_link_preserved_witness :
  consistent Scenario.world /\ consistent Scenario.world_day.
Proof.
  destruct (one_token_per_link_preserved Scenario.env) as (Hinit & Hcreate & _).
  assert (Hworld : consistent Scenario.world).
  { by apply consistent_no_tokens. }
  split; [exact Hworld|].
  pose proof (Hcreate Scenario.alice_web None Scenario.world Hworld) as Hday.
  by rewrite create_day in Hday.
Defined.

(** ** The throttle: rate and cache key *)

Section Throttle.

Import Py UserClientRateThrottle.

Context {View : Type}.
Variable THROTTLE_RATES : gmap string (option string).
Variable get_ident : Request.t -> string.
Variable super_allow_request : t -> Request.t -> View -> Result bool.

Abbreviation allow := (allow_request THROTTLE_RATES super_allow_request).

Local Arguments parse_rate : simpl never.

(** With a rate of its own the client's rate is used, whatever the
    configured defaults. *)
Lemma allow_request_rate_own request view self auth r :
  User.is_authenticated (Request.user request) = true ->
  Request._auth request = Some (Some auth) ->
  Client.throttle_rate (Auth.client auth) = Some r ->
  r <> EmptyString ->
  proceeds_with super_allow_request (Some r) request view self
    (allow request view self).
Proof using Type.
  intros Hu Ha Hr Hne.
  unfold allow_request, bind, lift, get, set_rate, set_limits, modify.
  rewrite Hu, Ha, Hr. destruct r as [|c r]; [done|]. cbn.
  unfold proceeds_with.
  destruct (parse_rate (Some (String c r))) as [[n d]|e]; cbn.
  - split; [done|]. split; [by intros n' d' [= <- <-] | by intros e [=]].
  - split; [done|]. split; [by intros n' d' [=] | by intros e' [= <-]].
Qed.

Lemma allow_request_rate_default request view self default :
  THROTTLE_RATES !! scope = Some default ->
  User.is_authenticated (Request.user request) = false
  \/ Request._auth request = None
  \/ (exists auth, Request._auth request = Some (Some auth)
                   /\ truthy (Client.throttle_rate (Auth.client auth)) = false) ->
  proceeds_with super_allow_request default request view self
    (allow request view self).
Proof using Type.
  intros Hd Hcase.
  assert (Htail :
    proceeds_with super_allow_request default request view self
      match parse_rate default with
      | Ok limits =>
          (super_allow_request
             {| rate := default; num_requests := fst limits;
                duration := snd limits |} request view,
           {| rate := default; num_requests := fst limits;
              duration := snd limits |})
      | Raise e =>
          (Raise e,
           {| rate := default; num_requests := num_requests self;
              duration := duration self |})
      end).
  { unfold proceeds_with.
    destruct (parse_rate default) as [[n d]|e]; cbn.
    - split; [done|]. split; [by intros n' d' [= <- <-] | by intros e [=]].
    - split; [done|]. split; [by intros n' d' [=] | by intros e' [= <-]]. }
  unfold allow_request, bind, lift, get, set_rate, set_limits, modify, get_rate.
  rewrite Hd.
  destruct (User.is_authenticated (Request.user request)) eqn:Hu;
    destruct (Request._auth request) as [[auth|]|] eqn:Ha; cbn;
    try exact Htail.
  - destruct Hcase as [? | [? | (auth' & [= <-] & Hfalse)]]; try done.
    rewrite Hfalse. exact Htail.
  - by destruct Hcase as [? | [? | (auth' & [=] & _)]].
Qed.

(** C1, as the code has it: [allow_request] goes on with the client's
    [throttle_rate] when the user is authenticated, the request carries a
    client and that rate is a non-empty string, whatever the configured
    defaults; and, with a default rate configured for the scope, it goes on
    with the default when the client's rate is [None] or the empty string,
    when the user is not authenticated, and when the request has no [_auth]
    attribute.  Going on with a rate means that [self.rate] is that rate and
    the limits and the answer are computed from it. *)
Theorem allow_request_effective_rate request view self :
  (forall auth r,
     User.is_authenticated (Request.user request) = true ->
     Request._auth request = Some (Some auth) ->
     Client.throttle_rate (Auth.client auth) = Some r ->
     r <> EmptyString ->
     rate (snd (allow request view self)) = Some r
     /\ proceeds_with super_allow_request (Some r) request view self
          (allow request view self))
  /\ (forall default,
        THROTTLE_RATES !! scope = Some default ->
        (forall auth,
           User.is_authenticated (Request.user request) = true ->
           Request._auth request = Some (Some auth) ->
           Client.throttle_rate (Auth.client auth) = None
           \/ Client.throttle_rate (Auth.client auth) = Some EmptyString ->
           rate (snd (allow request view self)) = default
           /\ proceeds_with super_allow_request default request view self
                (allow request view self))
        /\ (User.is_authenticated (Request.user request) = false
            \/ Request._auth request = None ->
            rate (snd (allow request view self)) = default
            /\ proceeds_with super_allow_request default request view self
                 (allow request view self))).
Proof using Type.
  split.
  - intros auth r Hu Ha Hr Hne.
    pose proof (allow_request_rate_own request view self auth r Hu Ha Hr Hne)
      as Hown.
    split; [apply Hown | exact Hown].
  - intros default Hd. split.
    + intros auth _ Ha Hr.
      assert (Hdef : proceeds_with super_allow_request default request view
                       self (allow request view self)).
      { apply allow_request_rate_default; [done|].
        right; right. exists auth. split; [done|].
        by destruct Hr as [-> | ->]. }
      split; [apply Hdef | exact Hdef].
    + intros Hcase.
      assert (Hdef : proceeds_with super_allow_request default request view
                       self (allow request view self)).
      { apply allow_request_rate_default; [done|].
        destruct Hcase as [Hanon | Hnone]; [by left | by right; left]. }
      split; [apply Hdef | exact Hdef].
Qed.

(** The cache key is "throttle_user_per_client_" followed by the ident:
    "user-<user pk>.client-<client pk>" for an authenticated user on a
    request that carries a client, the user's primary key for an
    authenticated user on a request without the [_auth] attribute, and what
    [get_ident] gives for a user who is not authenticated. *)
Lemma get_cache_key_ident (request : Request.t) (view : View) :
  (forall auth,
     User.is_authenticated (Request.user request) = true ->
     Request._auth request = Some (Some auth) ->
     get_cache_key get_ident request view
     = Ok ("throttle_user_per_client_"
             +:+ "user-" +:+ str (User.pk (Request.user request))
             +:+ ".client-" +:+ str (Client.pk (Auth.client auth))))
  /\ (User.is_authenticated (Request.user request) = true ->
      Request._auth request = None ->
      get_cache_key get_ident request view
      = Ok ("throttle_user_per_client_"
              +:+ str (User.pk (Request.user request))))
  /\ (User.is_authenticated (Request.user request) = false ->
      get_cache_key get_ident request view
      = Ok ("throttle_user_per_client_" +:+ get_ident request)).
Proof.
  unfold get_cache_key, get_user_client_ident.
  repeat apply conj.
  - by intros auth -> ->.
  - by intros -> ->.
  - by intros ->.
Qed.

(** C8, where the code departs from it: on a request whose user is
    authenticated and whose [_auth] attribute is set to a value without a
    client (what rest_framework leaves for a user authenticated by another
    scheme), [hasattr(request, "_auth")] holds, so [get_cache_key] calls
    [get_user_client_ident] and raises AttributeError instead of using the
    user's primary key; [allow_request] raises on [request._auth.client] in
    the same way, before it has assigned a rate. *)
Theorem get_cache_key_auth_without_client (request : Request.t) (view : View)
    (self : t) :
  User.is_authenticated (Request.user request) = true ->
  Request._auth request = Some None ->
  get_cache_key get_ident request view = Raise AttributeError
  /\ get_cache_key get_ident request view
     <> Ok ("throttle_user_per_client_"
              +:+ str (User.pk (Request.user request)))
  /\ allow request view self = (Raise AttributeError, self).
Proof.
  intros Hu Ha.
  unfold get_cache_key, get_user_client_ident, allow_request, bind, raise.
  by rewrite Hu, Ha.
Qed.

End Throttle.

Section ThrottleRuns.

Import Py UserClientRateThrottle.

Lemma allow_request_effective_rate_witness :
  rate (snd (allow_request Scenario.rates Scenario.pass_all
               Scenario.request_cli tt unset)) = Some "5/m"
  /\ rate (snd (allow_request Scenario.rates Scenario.pass_all
                  Scenario.request_session tt unset)) = Some "10/min".
Proof.
  destruct (allow_request_effective_rate Scenario.rates Scenario.pass_all
              Scenario.request_cli tt unset) as [Hown _].
  destruct (allow_request_effective_rate Scenario.rates Scenario.pass_all
              Scenario.request_session tt unset) as [_ Hdefault].
  destruct (Hdefault (Some "10/min") eq_refl) as [_ Hnone].
  split.
  - apply (Hown {| Auth.client := Scenario.cli |} "5/m"); done.
  - apply Hnone. by right.
Defined.

(** C1 as stated fails on a rate that is not null but empty: the request is
    authenticated and carries its client, the client's [throttle_rate] is the
    empty string, and the rate used is the default. *)
Lemma blank_rate_uses_default :
  User.is_authenticated (Request.user Scenario.request_blank) = true
  /\ Request._auth Scenario.request_blank
     = Some (Some {| Auth.client := Scenario.blank |})
  /\ Client.throttle_rate Scenario.blank = Some EmptyString
  /\ Scenario.rates !! scope = Some (Some "10/min")
  /\ rate (snd (allow_request Scenario.rates Scenario.pass_all
                  Scenario.request_blank tt unset)) = Some "10/min"
  /\ rate (snd (allow_request Scenario.rates Scenario.pass_all
                  Scenario.request_blank tt unset))
     <> Client.throttle_rate Scenario.blank.
Proof. repeat apply conj; try reflexivity. vm_compute. intros [=]. Qed.

Lemma get_cache_key_ident_witness :
  get_cache_key (View := unit) Scenario.address Scenario.request_cli tt
  = Ok "throttle_user_per_client_user-7.client-2".
Proof.
  destruct (get_cache_key_ident (View := unit) Scenario.address
              Scenario.request_cli tt) as (Hpair & _ & _).
  exact (Hpair {| Auth.client := Scenario.cli |} eq_refl eq_refl).
Defined.

Lemma get_cache_key_auth_without_client_witness :
  get_cache_key (View := unit) Scenario.address Scenario.request_other_scheme tt
  = Raise AttributeError
  /\ allow_request Scenario.rates Scenario.pass_all
       Scenario.request_other_scheme tt unset
     = (Raise AttributeError, unset).
Proof.
  destruct (get_cache_key_auth_without_client Scenario.rates Scenario.address
              Scenario.pass_all Scenario.request_other_scheme tt unset
              eq_refl eq_refl) as (Hkey & _ & Hallow).
  by split.
Defined.

End ThrottleRuns.

(** * Further properties of the two modules *)

(** ** The validator and the parser used at request time *)

Section RateParsing.

Import Py UserClientRateThrottle.

Lemma validate_ok_body (rate : string) :
  validate_client_throttle_rate (Some rate) = Ok tt
  <-> exists n d, validate_body rate = Ok (n, d).
Proof.
  unfold validate_client_throttle_rate.
  destruct (validate_body rate) as [[n d]|e].
  - split; [intros _; by exists n, d | done].
  - split; [by destruct e | by intros (n & d & [=])].
Qed.

(** What the validator computed is what the parser computes. *)
Lemma validate_body_parse_rate (rate : string) (n d : Z) :
  validate_body rate = Ok (n, d) ->
  parse_rate (Some rate) = Ok (Some n, Some d)
  /\ (d = 1 \/ d = 60 \/ d = 3600 \/ d = 86400).
Proof.
  unfold validate_body, parse_rate.
  destruct (unpack2 (split "/" rate)) as [[num period]|e]; [|done].
  destruct (int num) as [k|e]; [|done].
  destruct (TIME_PERIODS_MAP !! period) as [d'|] eqn:Hd; [|done].
  intros [= -> ->].
  assert (Hp : is_Some (TIME_PERIODS_MAP !! period)) by by eexists.
  apply TIME_PERIODS_MAP_known in Hp.
  destruct Hp as [-> | [-> | [-> | ->]]]; vm_compute in Hd;
    injection Hd as <-; split; auto.
Qed.

(** X1: A rate that passes [validate_client_throttle_rate] is parsed by
    [parse_rate] without an exception, to a count and one of the four
    window lengths: a validated rate cannot fail at request time. *)
Theorem validated_rate_parses (rate : string) :
  validate_client_throttle_rate (Some rate) = Ok tt ->
  exists n d,
    validate_body rate = Ok (n, d)
    /\ parse_rate (Some rate) = Ok (Some n, Some d)
    /\ (d = 1 \/ d = 60 \/ d = 3600 \/ d = 86400).
Proof.
  intros (n & d & Hbody)%validate_ok_body. exists n, d.
  split; [done|]. by apply validate_body_parse_rate.
Qed.

Lemma validated_rate_parses_witness :
  parse_rate (Some "100/h") = Ok (Some 100, Some 3600).
Proof.
  destruct (validated_rate_parses "100/h" eq_refl) as (n & d & Hbody & Hparse & _).
  vm_compute in Hbody. injection Hbody as <- <-. exact Hparse.
Defined.

(** X2: the converse fails for every period longer than one character that
    starts with "s", "m", "h" or "d" (such as the "10/min" of the module's
    own documentation): [parse_rate] reads the first character and accepts
    the rate, the validator looks the whole period up and raises
    "invalid period". *)
Theorem long_period_parses_but_is_invalid (num : string) (n : Z) (c : ascii)
    (rest : string) :
  int_literal num = Some n ->
  all_chars (fun a => negb (Ascii.eqb a "/")) num = true ->
  all_chars (fun a => negb (Ascii.eqb a "/")) rest = true ->
  is_Some (TIME_PERIODS_MAP !! String c EmptyString) ->
  rest <> EmptyString ->
  parse_rate (Some (num +:+ "/" +:+ String c rest))
  = Ok (Some n, TIME_PERIODS_MAP !! String c EmptyString)
  /\ validate_client_throttle_rate (Some (num +:+ "/" +:+ String c rest))
     = Raise (DjValidationError
                (Text ("invalid period '" +:+ String c rest +:+ "'."))).
Proof.
  intros Hn Hnum Hrest [d Hd] Hlong.
  assert (Hc : negb (Ascii.eqb c "/") = true).
  { pose proof (proj1 (TIME_PERIODS_MAP_known (String c EmptyString))
                  (ex_intro _ d Hd)) as Hp.
    destruct Hp as [[= ->] | [[= ->] | [[= ->] | [= ->]]]]; reflexivity. }
  assert (Hsplit : split "/" (num +:+ "/" +:+ String c rest)
                   = [num; String c rest]).
  { change (num +:+ "/" +:+ String c rest)
      with (num +:+ String "/" (String c rest)).
    rewrite split_app_sep by done. f_equal. apply split_no_sep.
    cbn [all_chars]. by rewrite Hc, Hrest. }
  assert (Hunknown : TIME_PERIODS_MAP !! String c rest = None).
  { destruct (TIME_PERIODS_MAP !! String c rest) as [d'|] eqn:Hd'; [|done].
    assert (Hp : is_Some (TIME_PERIODS_MAP !! String c rest)) by by eexists.
    apply TIME_PERIODS_MAP_known in Hp.
    destruct Hp as [[= _ ?] | [[= _ ?] | [[= _ ?] | [= _ ?]]]]; done. }
  unfold parse_rate, validate_client_throttle_rate, validate_body, int.
  rewrite Hsplit. cbn [unpack2]. by rewrite Hn, Hd, Hunknown.
Qed.

Lemma long_period_parses_but_is_invalid_witness :
  parse_rate (Some "10/min") = Ok (Some 10, Some 60)
  /\ validate_client_throttle_rate (Some "10/min")
     = Raise (DjValidationError (Text "invalid period 'min'.")).
Proof.
  apply (long_period_parses_but_is_invalid "10" 10 "m" "in");
    [reflexivity | reflexivity | reflexivity | by eexists | done].
Defined.

End RateParsing.

(** ** What [allow_request] does around the rate *)

Section AllowRequest.

Import Py UserClientRateThrottle.

Context {View : Type}.
Variable THROTTLE_RATES : gmap string (option string).
Variable super_allow_request : t -> Request.t -> View -> Result bool.

Local Arguments parse_rate : simpl never.

(** X3: with a client rate that passed validation, [allow_request] consults
    neither the configured defaults nor anything else that can raise: it
    stores the rate, the count and the window length the validator computed,
    and answers what the inherited check answers on the throttle so set. *)
Theorem allow_request_validated_rate request view self auth r :
  User.is_authenticated (Request.user request) = true ->
  Request._auth request = Some (Some auth) ->
  Client.throttle_rate (Auth.client auth) = Some r ->
  validate_client_throttle_rate (Some r) = Ok tt ->
  exists n d,
    validate_body r = Ok (n, d)
    /\ let self' := {| rate := Some r; num_requests := Some n;
                       duration := Some d |} in
       allow_request THROTTLE_RATES super_allow_request request view self
       = (super_allow_request self' request view, self').
Proof.
  intros Hu Ha Hr Hvalid.
  apply validate_ok_body in Hvalid as (n & d & Hbody).
  destruct (validate_body_parse_rate r n d Hbody) as [Hparse _].
  exists n, d. split; [done|].
  assert (Hne : truthy (Some r) = true).
  { destruct r; [by vm_compute in Hbody|done]. }
  unfold allow_request, bind, lift, get, set_rate, set_limits, modify.
  rewrite Hu, Ha, Hr, Hne. cbn. by rewrite Hparse.
Qed.

(** X4: when the default is needed and none is configured for the scope,
    [allow_request] raises ImproperlyConfigured before it has assigned
    anything. *)
Theorem allow_request_without_default request view self :
  THROTTLE_RATES !! scope = None ->
  User.is_authenticated (Request.user request) = false
  \/ Request._auth request = None
  \/ (exists auth, Request._auth request = Some (Some auth)
                   /\ truthy (Client.throttle_rate (Auth.client auth)) = false) ->
  allow_request THROTTLE_RATES super_allow_request request view self
  = (Raise ImproperlyConfigured, self).
Proof.
  intros Hd Hcase.
  unfold allow_request, bind, lift, get, set_rate, set_limits, modify, get_rate.
  rewrite Hd.
  destruct (User.is_authenticated (Request.user request)) eqn:Hu;
    destruct (Request._auth request) as [[auth|]|] eqn:Ha; try done.
  - destruct Hcase as [? | [? | (auth' & [= <-] & Hfalse)]]; try done.
    by rewrite Hfalse.
  - by destruct Hcase as [? | [? | (auth' & [=] & _)]].
Qed.

(** X5: A client rate that [parse_rate] refuses (one stored without validation)
    makes [allow_request] raise at request time: the rate has been assigned
    by then, the count and the window length are those of the previous
    request, and the inherited check is not reached. *)
Theorem allow_request_malformed_rate request view self auth r e :
  User.is_authenticated (Request.user request) = true ->
  Request._auth request = Some (Some auth) ->
  Client.throttle_rate (Auth.client auth) = Some r ->
  r <> EmptyString ->
  parse_rate (Some r) = Raise e ->
  allow_request THROTTLE_RATES super_allow_request request view self
  = (Raise e, {| rate := Some r; num_requests := num_requests self;
                 duration := duration self |}).
Proof.
  intros Hu Ha Hr Hne Hparse.
  unfold allow_request, bind, lift, get, set_rate, set_limits, modify.
  rewrite Hu, Ha, Hr. destruct r as [|c r]; [done|]. cbn.
  by rewrite Hparse.
Qed.

End AllowRequest.

Section AllowRequestRuns.

Import Py UserClientRateThrottle.

Lemma allow_request_validated_rate_witness :
  allow_request Scenario.rates Scenario.pass_all Scenario.request_cli tt unset
  = (Ok true, {| rate := Some "5/m"; num_requests := Some 5;
                 duration := Some 60 |}).
Proof.
  destruct (allow_request_validated_rate Scenario.rates Scenario.pass_all
              Scenario.request_cli tt unset {| Auth.client := Scenario.cli |}
              "5/m" eq_refl eq_refl eq_refl eq_refl)
    as (n & d & Hbody & Hrun).
  vm_compute in Hbody. injection Hbody as <- <-. exact Hrun.
Defined.

Lemma allow_request_without_default_witness :
  allow_request (View := unit) ∅ Scenario.pass_all Scenario.request_blank tt unset
  = (Raise ImproperlyConfigured, unset).
Proof.
  apply allow_request_without_default; [reflexivity|].
  right; right. exists {| Auth.client := Scenario.blank |}. by split.
Defined.

Lemma allow_request_malformed_rate_witness :
  allow_request Scenario.rates Scenario.pass_all Scenario.request_broken tt unset
  = (Raise (ValueError_int "abc"),
     {| rate := Some "abc/h"; num_requests := None; duration := None |}).
Proof.
  by apply (allow_request_malformed_rate Scenario.rates Scenario.pass_all
              Scenario.request_broken tt unset
              {| Auth.client := Scenario.broken |} "abc/h").
Defined.

End AllowRequestRuns.

(** ** Cache keys keep the counters apart *)

Section CacheKeys.

Import Py UserClientRateThrottle.

Lemma append_inj_l (s t1 t2 : string) : s +:+ t1 = s +:+ t2 -> t1 = t2.
Proof.
  induction s as [|c s IH]; [done|].
  rewrite !append_cons. intros [= ?]. auto.
Qed.

(** Two strings cut at the first character that fails [p] agree piecewise. *)
Lemma append_sep_inj (p : ascii -> bool) (c : ascii) (s1 s2 t1 t2 : string) :
  p c = false ->
  all_chars p s1 = true -> all_chars p s2 = true ->
  s1 +:+ String c t1 = s2 +:+ String c t2 ->
  s1 = s2 /\ t1 = t2.
Proof.
  intros Hc. revert s2.
  induction s1 as [|a s1 IH]; intros [|b s2]; cbn [all_chars];
    rewrite ?append_cons, ?append_nil_l.
  - by intros _ _ [= ->].
  - intros _ [Hb _]%andb_true_iff [= <- _]. congruence.
  - intros [Ha _]%andb_true_iff _ [= -> _]. congruence.
  - intros [_ H1]%andb_true_iff [_ H2]%andb_true_iff [= -> Heq].
    destruct (IH s2 H1 H2 Heq) as [-> ->]. done.
Qed.

Lemma str_inj (a b : Z) : str a = str b -> a = b.
Proof.
  intros Heq. pose proof (int_literal_str a) as Ha.
  rewrite Heq, int_literal_str in Ha. by injection Ha.
Qed.

Lemma str_first_char (n : Z) :
  exists c rest, str n = String c rest
                 /\ is_digit c || Ascii.eqb c "-" = true.
Proof.
  pose proof (str_chars n) as Hchars. pose proof (int_literal_str n) as Hint.
  destruct (str n) as [|c rest]; [done|].
  exists c, rest. split; [done|].
  cbn [all_chars] in Hchars. by apply andb_true_iff in Hchars as [? _].
Qed.

Context {View : Type}.
Variable get_ident : Request.t -> string.

(** X6: [get_cache_key] raises exactly on a request whose user is
    authenticated and whose [_auth] attribute is set to a value without a
    client, and the exception is the AttributeError of
    [get_user_client_ident]; on every other request it returns a key.
    [get_user_client_ident] itself raises on every request that carries no
    client, with or without the attribute. *)
Theorem get_cache_key_raises_iff (request : Request.t) (view : View) :
  ((exists e, get_cache_key get_ident request view = Raise e)
   <-> User.is_authenticated (Request.user request) = true
       /\ Request._auth request = Some None)
  /\ (forall e,
        get_cache_key get_ident request view = Raise e -> e = AttributeError)
  /\ ((exists key, get_cache_key get_ident request view = Ok key)
      <-> ~ (User.is_authenticated (Request.user request) = true
             /\ Request._auth request = Some None))
  /\ (get_user_client_ident request = Raise AttributeError
      <-> forall auth, Request._auth request <> Some (Some auth)).
Proof.
  unfold get_cache_key, get_user_client_ident.
  destruct (User.is_authenticated (Request.user request));
    destruct (Request._auth request) as [[auth|]|]; cbn.
  all: repeat apply conj;
    try (intros [? ?]); try (intros ? ?); try (intros ?);
    try discriminate; try (injection 1 as <-); eauto;
    try match goal with
        | H : Raise _ = Raise _ |- _ => by injection H
        | H : _ /\ _ |- _ => destruct H; discriminate
        | H : ~ _ |- _ => destruct H; by split
        | H : forall _, _ <> _ |- _ => by edestruct H
        end.
Qed.

(** X7: two authenticated requests that carry their client share a cache key
    exactly when they come from the same user through the same client: each
    user-client pair has a counter of its own. *)
Theorem get_cache_key_per_pair (r1 r2 : Request.t) (v1 v2 : View) a1 a2 :
  User.is_authenticated (Request.user r1) = true ->
  User.is_authenticated (Request.user r2) = true ->
  Request._auth r1 = Some (Some a1) ->
  Request._auth r2 = Some (Some a2) ->
  get_cache_key get_ident r1 v1 = get_cache_key get_ident r2 v2
  <-> User.pk (Request.user r1) = User.pk (Request.user r2)
      /\ Client.pk (Auth.client a1) = Client.pk (Auth.client a2).
Proof.
  intros Hu1 Hu2 Ha1 Ha2.
  unfold get_cache_key, get_user_client_ident.
  rewrite Hu1, Hu2, Ha1, Ha2. cbn [map_result format_s cache_format].
  split; [|by intros [-> ->]].
  intros [= Heq].
  assert (Hcore :
    str (User.pk (Request.user r1))
      +:+ String "." ("client-" +:+ str (Client.pk (Auth.client a1)))
    = str (User.pk (Request.user r2))
      +:+ String "." ("client-" +:+ str (Client.pk (Auth.client a2)))).
  { exact Heq. }
  apply (append_sep_inj (fun c => is_digit c || Ascii.eqb c "-")) in Hcore
    as [Hu Hc]; [|reflexivity|apply str_chars..].
  apply append_inj_l in Hc. split; by apply str_inj.
Qed.

(** X8: the key of a request that carries its client is never the key of an
    authenticated request without one, whatever the primary keys. *)
Theorem get_cache_key_pair_not_user (r1 r2 : Request.t) (v1 v2 : View) a1 :
  User.is_authenticated (Request.user r1) = true ->
  User.is_authenticated (Request.user r2) = true ->
  Request._auth r1 = Some (Some a1) ->
  Request._auth r2 = None ->
  get_cache_key get_ident r1 v1 <> get_cache_key get_ident r2 v2.
Proof.
  intros Hu1 Hu2 Ha1 Ha2.
  unfold get_cache_key, get_user_client_ident.
  rewrite Hu1, Hu2, Ha1, Ha2. cbn [map_result format_s cache_format].
  intros [= Heq].
  assert (Hcore :
    "user-" +:+ str (User.pk (Request.user r1))
      +:+ ".client-" +:+ str (Client.pk (Auth.client a1))
    = str (User.pk (Request.user r2))).
  { exact Heq. }
  destruct (str_first_char (User.pk (Request.user r2))) as (c & rest & Hstr & Hc).
  rewrite Hstr in Hcore. injection Hcore as <- _. done.
Qed.

End CacheKeys.

Section CacheKeyRuns.

Import Py UserClientRateThrottle.

Lemma get_cache_key_per_pair_witness :
  get_cache_key (View := unit) Scenario.address Scenario.request_cli tt
  <> get_cache_key (View := unit) Scenario.address Scenario.request_bob_cli tt.
Proof.
  intros Heq.
  apply (get_cache_key_per_pair Scenario.address Scenario.request_cli
           Scenario.request_bob_cli tt tt {| Auth.client := Scenario.cli |}
           {| Auth.client := Scenario.cli |} eq_refl eq_refl eq_refl eq_refl)
    in Heq as [Hpk _].
  discriminate Hpk.
Defined.

Lemma get_cache_key_pair_not_user_witness :
  get_cache_key (View := unit) Scenario.address Scenario.request_cli tt
  <> get_cache_key (View := unit) Scenario.address Scenario.request_session tt.
Proof.
  exact (get_cache_key_pair_not_user Scenario.address Scenario.request_cli
           Scenario.request_session tt tt {| Auth.client := Scenario.cli |}
           eq_refl eq_refl eq_refl eq_refl).
Defined.

End CacheKeyRuns.

(** ** Token strings at every length setting *)

Section TokenStrings.

Import Py.

Lemma int_half_nonneg_iff (x : Z) : 0 <= int_half x <-> -2 < x.
Proof.
  unfold int_half. split.
  - intros H. destruct (Z.lt_ge_cases (-2) x) as [|Hx]; [done|].
    assert (x ÷ 2 <= (-2) ÷ 2) by (apply Z.quot_le_mono; lia).
    change ((-2) ÷ 2) with (-1) in *. lia.
  - intros H. destruct (Z.lt_ge_cases x 0) as [Hx|Hx].
    + assert (x = -1) as -> by lia. done.
    + apply Z.quot_pos; lia.
Qed.

(** X9: for a length setting that is not negative, even or odd, the generator
    returns a lowercase hexadecimal string of twice the half of the setting:
    the setting itself when it is even, one character less when it is odd,
    so never more than the [max_length] of the token column. *)
Theorem create_token_string_fits (E : Env) (w : World) :
  let len := Settings.TOKEN_CHARACTER_LENGTH (durin_settings E) in
  0 <= len ->
  exists tok w',
    _create_token_string E w = (Ok tok, w')
    /\ Z.of_nat (String.length tok) = 2 * (len / 2)
    /\ Z.of_nat (String.length tok) = len - len mod 2
    /\ Z.of_nat (String.length tok) <= len
    /\ all_chars is_lower_hex tok = true.
Proof.
  intros len Hlen.
  assert (Hhalf : int_half len = len / 2).
  { unfold int_half. apply Z.quot_div_nonneg; lia. }
  assert (0 <= len / 2) by (apply Z.div_pos; lia).
  pose proof (Z.div_mod len 2 ltac:(lia)) as Hdm.
  pose proof (Z.mod_pos_bound len 2 ltac:(lia)) as Hmod.
  eexists _, _. split.
  - unfold _create_token_string, bind, ret, urandom. fold len.
    rewrite Hhalf. destruct (Z.ltb_spec (len / 2) 0); [lia|reflexivity].
  - rewrite hexlify_length, length_fmap, length_seq.
    repeat split; try lia. apply hexlify_lower_hex.
Qed.

(** X10: the generator raises exactly for a setting of -2 or less, where
    [os.urandom] gets a negative count, and then leaves the world as it was.
    A setting of -1 is halved to zero and gives the empty token string. *)
Theorem create_token_string_raises_iff (E : Env) (w : World) :
  let len := Settings.TOKEN_CHARACTER_LENGTH (durin_settings E) in
  (_create_token_string E w = (Raise ValueError_urandom, w) <-> len <= -2)
  /\ (is_ok (fst (_create_token_string E w)) = true <-> -2 < len)
  /\ (len = -1 -> _create_token_string E w = (Ok EmptyString, w)).
Proof.
  intros len. pose proof (int_half_nonneg_iff len) as Hhalf.
  unfold _create_token_string, bind, ret, urandom. fold len.
  destruct (Z.ltb_spec (int_half len) 0) as [Hneg|Hpos]; cbn.
  - repeat split; try done; try lia.
  - repeat split; try done; try lia.
    intros Hlen. rewrite Hlen.
    change (Z.to_nat (int_half (-1))) with 0%nat.
    unfold with_drawn. cbn. rewrite Nat.add_0_r. by destruct w.
Qed.

Lemma hex_decode_byte (b : byte) (rest : string) :
  lower_hex_decode (hexlify_byte b +:+ rest)
  = match lower_hex_decode rest with
    | Some bs => Some (b :: bs)
    | None => None
    end.
Proof.
  unfold hexlify_byte. rewrite !append_cons, append_nil_l.
  cbn [lower_hex_decode].
  destruct (lower_hex_decode rest); destruct b; reflexivity.
Qed.

Lemma hex_decode_hexlify (bs : list byte) :
  lower_hex_decode (hexlify bs) = Some bs.
Proof.
  induction bs as [|b bs IH]; [done|].
  cbn [hexlify]. by rewrite hex_decode_byte, IH.
Qed.

(** X11: the encoding loses nothing: two generated token strings are equal only
    if the random bytes behind them were equal, and the bytes can be read
    back from the string. *)
Theorem create_token_string_injective (E1 E2 : Env) (w1 w2 : World)
    tok1 tok2 w1' w2' :
  _create_token_string E1 w1 = (Ok tok1, w1') ->
  _create_token_string E2 w2 = (Ok tok2, w2') ->
  exists bs1 bs2,
    lower_hex_decode tok1 = Some bs1
    /\ lower_hex_decode tok2 = Some bs2
    /\ bs1 = (entropy E1 <$> seq (drawn w1) (drawn w1' - drawn w1))
    /\ bs2 = (entropy E2 <$> seq (drawn w2) (drawn w2' - drawn w2))
    /\ (tok1 = tok2 <-> bs1 = bs2).
Proof.
  unfold _create_token_string, bind, ret, urandom.
  destruct (Z.ltb_spec
              (int_half (Settings.TOKEN_CHARACTER_LENGTH (durin_settings E1))) 0);
    [done|].
  destruct (Z.ltb_spec
              (int_half (Settings.TOKEN_CHARACTER_LENGTH (durin_settings E2))) 0);
    [done|].
  intros [= <- <-] [= <- <-]. cbn [drawn with_drawn].
  eexists _, _. split; [apply hex_decode_hexlify|].
  split; [apply hex_decode_hexlify|].
  split; [f_equal; f_equal; lia|]. split; [f_equal; f_equal; lia|].
  split; [|by intros ->].
  intros Heq. apply (f_equal lower_hex_decode) in Heq.
  rewrite !hex_decode_hexlify in Heq. by injection Heq.
Qed.

End TokenStrings.

Lemma create_token_string_fits_witness :
  exists tok w',
    _create_token_string
      {| durin_settings :=
           {| Settings.TOKEN_CHARACTER_LENGTH := 7;
              Settings.DEFAULT_TOKEN_TTL := 0 |};
         now_at := now_at Scenario.env; entropy := entropy Scenario.env |}
      Scenario.world = (Py.Ok tok, w')
    /\ tok = "000102".
Proof.
  destruct (create_token_string_fits
              {| durin_settings :=
                   {| Settings.TOKEN_CHARACTER_LENGTH := 7;
                      Settings.DEFAULT_TOKEN_TTL := 0 |};
                 now_at := now_at Scenario.env; entropy := entropy Scenario.env |}
              Scenario.world) as (tok & w' & Hrun & _); [simpl; lia|].
  exists tok, w'. split; [exact Hrun|].
  vm_compute in Hrun. by injection Hrun as <- _.
Defined.

Lemma create_token_string_injective_witness :
  exists bs, lower_hex_decode "00010203" = Some bs /\ length bs = 4%nat.
Proof.
  destruct (create_token_string_injective Scenario.env Scenario.env
              Scenario.world Scenario.world "00010203" "00010203"
              (with_drawn 4 Scenario.world) (with_drawn 4 Scenario.world)
              eq_refl eq_refl) as (bs1 & _ & Hdec & _ & Hbs & _).
  exists bs1. split; [exact Hdec|]. by rewrite Hbs.
Defined.

(** ** Issuing, renewing and expiry together *)

Section Lifecycle.

Import Py.

Variable E : Env.

(** X12: A token that [create] returned has not expired at the next reading of
    the clock unless more than its time to live has passed since [create]
    read the clock.  The override is compared with [None], not tested for
    truth: an override of zero is used, and such a token has expired as soon
    as the clock has moved. *)
Theorem create_then_has_expired userclient delta_ttl w instance w1 :
  AuthTokenManager.create E userclient delta_ttl w = (Ok instance, w1) ->
  exists b w2,
    has_expired E instance w1 = (Ok b, w2)
    /\ (b = true
        <-> chosen_ttl userclient delta_ttl
            < now_at E (S (S (ticks w))) - now_at E (ticks w))
    /\ (delta_ttl = Some 0 ->
        AuthToken.expiry instance = now_at E (ticks w)
        /\ (b = true <-> now_at E (ticks w) < now_at E (S (S (ticks w))))).
Proof.
  intros Hrun.
  destruct (create_outcome E _ _ _ _ _ Hrun)
    as (_ & _ & _ & -> & Hticks & _).
  unfold has_expired, timezone_now, bind, ret. rewrite Hticks.
  eexists _, _. split; [reflexivity|].
  cbn [issued_row AuthToken.expiry]. rewrite Z.ltb_lt.
  split; [lia|]. intros ->. cbn [chosen_ttl]. lia.
Qed.

(** X13: after [create] has returned a token for a link, a second [create] for
    that link raises, whatever the override, and changes neither table nor
    sends a signal. *)
Theorem create_twice_conflicts userclient delta_ttl w instance w1
    userclient' delta_ttl' :
  AuthTokenManager.create E userclient delta_ttl w = (Ok instance, w1) ->
  UserClient.pk userclient' = UserClient.pk userclient ->
  exists e w2,
    AuthTokenManager.create E userclient' delta_ttl' w1 = (Raise e, w2)
    /\ authtoken_rows w2 = authtoken_rows w1
    /\ userclient_rows w2 = userclient_rows w1
    /\ sent w2 = sent w1.
Proof.
  intros Hrun Hpk.
  destruct (create_outcome E _ _ _ _ _ Hrun)
    as (_ & _ & _ & Hinst & _ & Hrows).
  assert (Htaken : link_taken (UserClient.pk userclient') (authtoken_rows w1)).
  { exists (AuthToken.pk instance), instance. rewrite Hrows.
    split; [apply lookup_insert_eq|]. rewrite Hinst, Hpk. done. }
  destruct (AuthTokenManager.create E userclient' delta_ttl' w1)
    as [r w2] eqn:Hrun2.
  destruct (create_outcome E _ _ _ _ _ Hrun2) as (Hlinks & Hsent & Hr).
  destruct r as [instance2|e].
  - destruct Hr as ((_ & _ & _ & _ & Hfree) & _). done.
  - exists e, w2. by destruct Hr as [_ ->].
Qed.

(** X16: renewal revives a token: after a [renew_token] that returned, the token
    has expired at the next reading of the clock exactly when more than the
    client's [token_ttl] has passed since the renewal read the clock,
    whatever the expiry was before. *)
Theorem renew_then_has_expired self renewed_by w e self' w1 :
  renew_token E self renewed_by w = (Ok (e, self'), w1) ->
  exists link b w2,
    AuthToken.userclient self = Some link
    /\ has_expired E self' w1 = (Ok b, w2)
    /\ (b = true
        <-> Client.token_ttl (UserClient.client link)
            < now_at E (S (ticks w)) - now_at E (ticks w)).
Proof.
  intros Hrun.
  destruct (renew_outcome E _ _ _ _ _ Hrun)
    as (_ & Hticks & link & row & Hlink & _ & -> & -> & _).
  exists link. unfold has_expired, timezone_now, bind, ret. rewrite Hticks.
  eexists _, _. split; [done|]. split; [reflexivity|].
  cbn [AuthToken.with_expiry AuthToken.expiry]. rewrite Z.ltb_lt. lia.
Qed.

End Lifecycle.

Section LifecycleRuns.

Import Py.

Lemma create_then_has_expired_witness :
  exists instance w1 w2,
    AuthTokenManager.create Scenario.env Scenario.alice_web (Some 0)
      Scenario.world = (Ok instance, w1)
    /\ AuthToken.expiry instance = 0
    /\ has_expired Scenario.env instance w1 = (Ok true, w2).
Proof.
  eexists _, _, _. split; [vm_compute; reflexivity|].
  edestruct (create_then_has_expired Scenario.env Scenario.alice_web (Some 0)
               Scenario.world) as (b & w2 & Hrun & _ & Hzero);
    [vm_compute; reflexivity|].
  destruct (Hzero eq_refl) as [Hexpiry Hb].
  split; [exact Hexpiry|]. vm_compute. reflexivity.
Defined.

Lemma create_twice_conflicts_witness :
  exists e w2,
    AuthTokenManager.create Scenario.env Scenario.alice_web
      (Some Scenario.ten_days) Scenario.world_day = (Raise e, w2)
    /\ authtoken_rows w2 = authtoken_rows Scenario.world_day.
Proof.
  destruct (create_twice_conflicts Scenario.env Scenario.alice_web None
              Scenario.world Scenario.token_day Scenario.world_day
              Scenario.alice_web (Some Scenario.ten_days) create_day eq_refl)
    as (e & w2 & Hrun & Hrows & _).
  by exists e, w2.
Defined.

Lemma renew_then_has_expired_witness :
  exists e self' w1 w2,
    renew_token Scenario.env Scenario.token_day "alice" Scenario.world_day
    = (Ok (e, self'), w1)
    /\ has_expired Scenario.env self' w1 = (Ok false, w2).
Proof.
  eexists _, _, _, _. split; [vm_compute; reflexivity|].
  edestruct (renew_then_has_expired Scenario.env Scenario.token_day "alice"
               Scenario.world_day) as (link & b & w2 & _ & Hrun & _);
    [vm_compute; reflexivity|].
  vm_compute. reflexivity.
Defined.

End LifecycleRuns.

(** ** Token strings stay unique *)

Section Uniqueness.

Import Py.

Variable E : Env.

Lemma renewed_rows_same (self : AuthToken.t) (e : Z) (row : AuthToken.t)
    (rows : gmap Z AuthToken.t) pk r :
  rows !! AuthToken.pk self = Some row ->
  <[AuthToken.pk self := AuthToken.with_expiry e row]> rows !! pk = Some r ->
  exists r0, rows !! pk = Some r0
             /\ AuthToken.token r0 = AuthToken.token r
             /\ AuthToken.pk r0 = AuthToken.pk r.
Proof.
  intros Hrow [[<- <-] | [_ Hr]]%lookup_insert_Some; by eexists.
Qed.

(** X17: no two stored tokens hold the same string, and every row sits under its
    own primary key: this is so with no tokens, and [create], [renew_token]
    and the deletion of a link keep it so, whether they return or raise. *)
Theorem token_strings_stay_unique :
  let good w := tokens_unique w /\ rows_keyed w in
  good initial
  /\ (forall userclient delta_ttl w,
        good w ->
        good (snd (AuthTokenManager.create E userclient delta_ttl w)))
  /\ (forall self renewed_by w,
        good w -> good (snd (renew_token E self renewed_by w)))
  /\ (forall link w, good w -> good (snd (UserClient_delete link w))).
Proof.
  intros good. unfold good, tokens_unique, rows_keyed.
  split; [|split; [|split]].
  - split; cbn; intros *; by rewrite lookup_empty.
  - intros userclient delta_ttl w [Hu Hk].
    destruct (AuthTokenManager.create E userclient delta_ttl w) as [r w'] eqn:Hrun.
    destruct (create_outcome E _ _ _ _ _ Hrun) as (_ & _ & Hr).
    cbn [snd]. destruct r as [instance|e];
      [|destruct Hr as [_ ->]; by split].
    destruct Hr as ((_ & _ & Hfree & _) & Hinst & _ & ->).
    assert (Htok : AuthToken.token instance = issued_token E w)
      by by rewrite Hinst.
    split.
    + intros pk1 pk2 row1 row2
        [[<- <-] | [_ H1]]%lookup_insert_Some
        [[<- <-] | [_ H2]]%lookup_insert_Some Heq; [done| | |by eapply Hu].
      * destruct Hfree. exists pk2, row2. split; [done|congruence].
      * destruct Hfree. exists pk1, row1. split; [done|congruence].
    + intros pk row [[<- <-] | [_ H1]]%lookup_insert_Some; [done|by apply Hk].
  - intros self renewed_by w [Hu Hk].
    destruct (renew_token E self renewed_by w) as [r w'] eqn:Hrun.
    destruct (renew_outcome E _ _ _ _ _ Hrun) as (_ & _ & Hr).
    cbn [snd]. destruct r as [[e self']|err];
      [|destruct Hr as [-> _]; by split].
    destruct Hr as (link & row & _ & Hrow & _ & _ & -> & _).
    split.
    + intros pk1 pk2 row1 row2
        (r1 & H1 & Ht1 & _)%(renewed_rows_same _ _ _ _ _ _ Hrow)
        (r2 & H2 & Ht2 & _)%(renewed_rows_same _ _ _ _ _ _ Hrow) Heq.
      eapply Hu; [done..|congruence].
    + intros pk r (r0 & H0 & _ & Hpk)%(renewed_rows_same _ _ _ _ _ _ Hrow).
      rewrite <- Hpk. by apply Hk.
  - intros link w [Hu Hk]. cbn. split.
    + intros pk1 pk2 row1 row2 [H1 _]%map_lookup_filter_Some
        [H2 _]%map_lookup_filter_Some. by eapply Hu.
    + intros pk row [H1 _]%map_lookup_filter_Some. by apply Hk.
Qed.

End Uniqueness.

Lemma token_strings_stay_unique_witness :
  tokens_unique Scenario.world_day /\ rows_keyed Scenario.world_day.
Proof.
  destruct (token_strings_stay_unique Scenario.env) as (Hinit & Hcreate & _).
  assert (Hworld : tokens_unique Scenario.world /\ rows_keyed Scenario.world).
  { split; intros pk; intros *; cbn; by rewrite lookup_empty. }
  pose proof (Hcreate Scenario.alice_web None Scenario.world Hworld) as Hday.
  by rewrite create_day in Hday.
Defined.
